(** * The after-sales dashboard script (dashboard.js), embedded in Rocq

    The script fetches JSON record sets, indexes and aggregates them with
    plain JavaScript objects used as maps, formats labels, and writes HTML
    strings into DOM containers.  This file gives

    - the part of the JavaScript value model the script exercises: numbers,
      strings, flat JSON records, ordinary objects with their own properties
      in creation order and their prototype, [Object.prototype] and its
      members, and the conversions [ToString], [ToBoolean], [ToNumber],
      [ToPropertyKey];
    - the helper functions and the six page functions of the script;
    - the properties of the specification, proved or refuted on them.

    Conventions.  A string is carried as the bytes of its UTF-8 encoding (the
    script only inspects ASCII characters, which no multi-byte sequence
    contains).  A finite number is carried exactly, as a canonical rational:
    rounding to binary64 is set aside, as the specification does; where a
    property depends on the digits of a number, it is stated up to
    [MAX_SAFE_INTEGER], where the exact value is the binary64 value.  A
    document is carried as its elements that have an id, none inside
    another; the elements that a string assigned to [innerHTML] creates are
    not carried; [inert] describes the data for which none of them has an
    id. *)

From Stdlib Require Import QArith Qcanon Ascii String.
From stdpp Require Import gmap strings list pretty sorting.

Local Open Scope string_scope.
Local Open Scope list_scope.

(** ** Numbers *)

Module JS.

Inductive number :=
  | NaN
  | Infinity (negative : bool)
  | Finite (q : Qc).

#[global] Instance number_eq_dec : EqDecision number.
Proof. solve_decision. Defined.

Definition of_Z (z : Z) : number := Finite (Qc_of_Z z).
Definition of_nat (n : nat) : number := of_Z (Z.of_nat n).

(** [m * 10^e] *)
Definition decimal (m e : Z) : Qc :=
  if (0 <=? e)%Z then Qc_of_Z (m * 10 ^ e)
  else Q2Qc (Qmake m (Z.to_pos (10 ^ (- e)))).

(** Number::add, on exact values. *)
Definition number_add (a b : number) : number :=
  match a, b with
  | NaN, _ | _, NaN => NaN
  | Infinity s, Infinity t => if bool_decide (s = t) then Infinity s else NaN
  | Infinity s, Finite _ | Finite _, Infinity s => Infinity s
  | Finite x, Finite y => Finite (x + y)
  end.

(** Number::equal, the comparison behind [===] on two numbers. *)
Definition number_equal (a b : number) : bool :=
  match a, b with
  | NaN, _ | _, NaN => false
  | _, _ => bool_decide (a = b)
  end.

(** *** Number::toString (radix 10)

    A positive finite value is written [s * 10^e] with [s] an integer that
    10 does not divide; [k] is the number of digits of [s] and [n = k + e]
    the position of the decimal point. *)

Fixpoint to_integer (fuel : nat) (x : Q) (e : Z) : Z * Z :=
  match fuel with
  | O => ((Qnum x / Z.pos (Qden x))%Z, e)
  | S fuel =>
      if (Qden x =? 1)%positive then (Qnum x, e)
      else to_integer fuel (Qred (x * 10)) (e - 1)
  end.

Fixpoint strip_zeros (fuel : nat) (s e : Z) : Z * Z :=
  match fuel with
  | O => (s, e)
  | S fuel =>
      if (s mod 10 =? 0)%Z then strip_zeros fuel (s / 10) (e + 1) else (s, e)
  end.

Definition significand (x : Q) : Z * Z :=
  let '(s, e) := to_integer (Pos.size_nat (Qden x)) x 0 in
  strip_zeros (Z.to_nat (Z.log2 s)) s e.

Definition zeros (n : Z) : string :=
  String.concat "" (replicate (Z.to_nat n) "0").

Definition substring_from (n : nat) (s : string) : string :=
  String.substring n (String.length s - n) s.

Definition exponent_part (n : Z) : string :=
  "e" +:+ (if (0 <=? n - 1)%Z then "+" else "-") +:+ pretty (Z.abs (n - 1)).

Definition positive_toString (x : Q) : string :=
  let '(s, e) := significand x in
  let digits := pretty s in
  let k := Z.of_nat (String.length digits) in
  let n := (k + e)%Z in
  if bool_decide (k <= n <= 21)%Z then digits +:+ zeros (n - k)
  else if bool_decide (0 < n <= 21)%Z then
    String.substring 0 (Z.to_nat n) digits +:+ "." +:+
    substring_from (Z.to_nat n) digits
  else if bool_decide (-6 < n <= 0)%Z then "0." +:+ zeros (- n) +:+ digits
  else if bool_decide (k = 1)%Z then digits +:+ exponent_part n
  else String.substring 0 1 digits +:+ "." +:+ substring_from 1 digits
       +:+ exponent_part n.

Definition number_toString (x : number) : string :=
  match x with
  | NaN => "NaN"
  | Infinity false => "Infinity"
  | Infinity true => "-Infinity"
  | Finite q =>
      match Qnum (this q) with
      | Z0 => "0"
      | Zpos _ => positive_toString (this q)
      | Zneg _ => "-" +:+ positive_toString (Qopp (this q))
      end
  end.

(** *** StringToNumber

    The conversion [Number(s)] applies to a string: white space and line
    terminators are trimmed at both ends, the empty string is [0], and what
    remains must be a StrNumericLiteral: a signed decimal literal, a signed
    [Infinity], or an unsigned binary, octal or hexadecimal integer literal.
    Anything else is [NaN]. *)

Definition bytes (s : string) : list N := N_of_ascii <$> list_ascii_of_string s.

(** The UTF-8 encodings of WhiteSpace and LineTerminator: TAB, LF, VT, FF, CR,
    SP, U+00A0, U+1680, U+2000 to U+200A, U+2028, U+2029, U+202F, U+205F,
    U+3000 and U+FEFF. *)
Definition StrWhiteSpaceChar : list (list N) :=
  ([[9]; [10]; [11]; [12]; [13]; [32]; [194; 160]; [225; 154; 128]]
   ++ ((λ b, [226; 128; b]) <$> [128; 129; 130; 131; 132; 133; 134; 135; 136; 137; 138])
   ++ [[226; 128; 168]; [226; 128; 169]; [226; 128; 175]; [226; 129; 159];
       [227; 128; 128]; [239; 187; 191]])%N.

Fixpoint drop_prefix (p l : list N) : option (list N) :=
  match p, l with
  | [], _ => Some l
  | a :: p, b :: l => if bool_decide (a = b) then drop_prefix p l else None
  | _ :: _, [] => None
  end.

Fixpoint drop_one (ws : list (list N)) (l : list N) : option (list N) :=
  match ws with
  | [] => None
  | w :: ws => match drop_prefix w l with Some r => Some r | None => drop_one ws l end
  end.

Fixpoint trim_start (ws : list (list N)) (fuel : nat) (l : list N) : list N :=
  match fuel with
  | O => l
  | S fuel =>
      match drop_one ws l with
      | Some r => trim_start ws fuel r
      | None => l
      end
  end.

Definition trim (l : list N) : list N :=
  let l := trim_start StrWhiteSpaceChar (length l) l in
  reverse (trim_start (reverse <$> StrWhiteSpaceChar) (length l) (reverse l)).

Definition digit (radix : N) (c : N) : option N :=
  let d := (if bool_decide (48 ≤ c ≤ 57) then Some (c - 48)
            else if bool_decide (97 ≤ c ≤ 102) then Some (c - 87)
            else if bool_decide (65 ≤ c ≤ 70) then Some (c - 55)
            else None)%N in
  d ≫= λ d, if (d <? radix)%N then Some d else None.

Fixpoint read_digits (radix : N) (l : list N) : list N * list N :=
  match l with
  | [] => ([], [])
  | c :: r =>
      match digit radix c with
      | Some d => let '(ds, r) := read_digits radix r in (d :: ds, r)
      | None => ([], l)
      end
  end.

Definition digits_value (radix : N) (ds : list N) : Z :=
  Z.of_N (foldl (λ acc d, acc * radix + d)%N 0%N ds).

Definition read_sign (l : list N) : bool * list N :=
  match l with
  | 43%N :: r => (false, r)
  | 45%N :: r => (true, r)
  | _ => (false, l)
  end.

Definition signed (negative : bool) (z : Z) : Z := if negative then (- z)%Z else z.

(** ExponentPart, optional: [e] or [E], an optional sign, one digit or more. *)
Definition ExponentPart (l : list N) : option Z :=
  match l with
  | [] => Some 0%Z
  | c :: r =>
      if bool_decide (c = 101 ∨ c = 69)%N then
        let '(negative, r) := read_sign r in
        match read_digits 10 r with
        | ((_ :: _) as ds, []) => Some (signed negative (digits_value 10 ds))
        | _ => None
        end
      else None
  end.

Definition StrDecimalLiteral (l : list N) : number :=
  let '(negative, l) := read_sign l in
  if bool_decide (l = bytes "Infinity") then Infinity negative
  else
    let '(int, l) := read_digits 10 l in
    let '(frac, l) := match l with
                      | 46%N :: r => read_digits 10 r
                      | _ => ([], l)
                      end in
    match int ++ frac, ExponentPart l with
    | _ :: _, Some e =>
        Finite (decimal (signed negative (digits_value 10 (int ++ frac)))
                        (e - Z.of_nat (length frac)))
    | _, _ => NaN
    end.

(** [0b], [0o] and [0x] literals: no sign, one digit or more. *)
Definition NonDecimalIntegerLiteral (l : list N) : option number :=
  match l with
  | 48%N :: c :: r =>
      let radix := (if bool_decide (c = 120 ∨ c = 88) then Some 16
                    else if bool_decide (c = 111 ∨ c = 79) then Some 8
                    else if bool_decide (c = 98 ∨ c = 66) then Some 2
                    else None)%N in
      radix ≫= λ radix,
        Some match read_digits radix r with
             | ((_ :: _) as ds, []) => of_Z (digits_value radix ds)
             | _ => NaN
             end
  | _ => None
  end.

Definition StringToNumber (s : string) : number :=
  match trim (bytes s) with
  | [] => of_Z 0
  | l => default (StrDecimalLiteral l) (NonDecimalIntegerLiteral l)
  end.

(** ** Values

    The data sets are arrays of flat objects: every field of a record is a
    JSON primitive.  A record is the object [JSON.parse] builds: its fields
    are own data properties and its prototype is [Object.prototype]. *)

Inductive json :=
  | JNull
  | JBoolean (b : bool)
  | JNumber (q : Qc)
  | JString (s : string).

#[global] Instance json_eq_dec : EqDecision json.
Proof. solve_decision. Defined.

Abbreviation record := (gmap string json).

(** The values the script handles: primitives, records, [Object.prototype]
    and the built-in functions reachable from it. *)
Inductive value :=
  | VUndefined
  | VNull
  | VBoolean (b : bool)
  | VNumber (n : number)
  | VString (s : string)
  | VRecord (r : record)
  | VObjectPrototype
  | VFunction (name : string).

#[global] Instance value_eq_dec : EqDecision value.
Proof. solve_decision. Defined.

Definition of_json (j : json) : value :=
  match j with
  | JNull => VNull
  | JBoolean b => VBoolean b
  | JNumber q => VNumber (Finite q)
  | JString s => VString s
  end.

(** *** Conversions *)

(** ToString.  [Object.prototype] is converted by its own [toString] and a
    built-in function by [Function.prototype.toString], whose text is fixed
    up to white space (the one given is V8's).  The script never converts a
    record: what it converts are fields of records, which are primitives,
    members of [Object.prototype], and results of [+]; the line of [VRecord]
    is the conversion of a record without a field named [toString]. *)
Definition ToString (v : value) : string :=
  match v with
  | VUndefined => "undefined"
  | VNull => "null"
  | VBoolean true => "true"
  | VBoolean false => "false"
  | VNumber n => number_toString n
  | VString s => s
  | VRecord _ | VObjectPrototype => "[object Object]"
  | VFunction name => "function " +:+ name +:+ "() { [native code] }"
  end.

Definition ToBoolean (v : value) : bool :=
  match v with
  | VUndefined | VNull => false
  | VBoolean b => b
  | VNumber NaN => false
  | VNumber (Infinity _) => true
  | VNumber (Finite q) => negb (bool_decide (q = 0%Qc))
  | VString s => negb (bool_decide (s = ""))
  | VRecord _ | VObjectPrototype | VFunction _ => true
  end.

Definition ToPrimitive (v : value) : value :=
  match v with
  | VRecord _ | VObjectPrototype | VFunction _ => VString (ToString v)
  | _ => v
  end.

(** ToNumber, which is also [Number(v)]. *)
Definition ToNumber (v : value) : number :=
  match ToPrimitive v with
  | VUndefined => NaN
  | VNull => of_Z 0
  | VBoolean true => of_Z 1
  | VBoolean false => of_Z 0
  | VNumber n => n
  | VString s => StringToNumber s
  | VRecord _ | VObjectPrototype | VFunction _ => NaN
  end.

Definition ToPropertyKey (v : value) : string := ToString v.

(** *** Operators *)

(** [a + b] *)
Definition addition (a b : value) : value :=
  match ToPrimitive a, ToPrimitive b with
  | VString x, y => VString (x +:+ ToString y)
  | x, VString y => VString (ToString x +:+ y)
  | x, y => VNumber (number_add (ToNumber x) (ToNumber y))
  end.

(** [a || b] *)
Definition logical_or (a b : value) : value := if ToBoolean a then a else b.

(** [a ?? b] *)
Definition coalesce (a b : value) : value :=
  match a with
  | VUndefined | VNull => b
  | _ => a
  end.

(** [a === b], one side a primitive. *)
Definition strict_equal (a b : value) : bool :=
  match a, b with
  | VNumber x, VNumber y => number_equal x y
  | _, _ => bool_decide (a = b)
  end.

(** ** Objects *)

(** The property names of [Object.prototype]: eleven methods and the
    accessor [__proto__]. *)
Definition ObjectPrototype_methods : list string :=
  ["constructor"; "__defineGetter__"; "__defineSetter__"; "hasOwnProperty";
   "__lookupGetter__"; "__lookupSetter__"; "isPrototypeOf";
   "propertyIsEnumerable"; "toString"; "valueOf"; "toLocaleString"].

Definition ObjectPrototype_names : list string :=
  "__proto__" :: ObjectPrototype_methods.

(** [[Get]] of [P] once the lookup has reached [Object.prototype]; the
    getter of [__proto__] answers the prototype of the receiver. *)
Definition ObjectPrototype_Get (receiver_prototype : value) (P : string) : value :=
  if bool_decide (P = "__proto__") then receiver_prototype
  else if bool_decide (P = "constructor") then VFunction "Object"
  else if bool_decide (P ∈ ObjectPrototype_methods) then VFunction P
  else VUndefined.

(** [[Get]] along the prototype chain, from the object [O] of the chain. *)
Definition inherited_Get (O receiver_prototype : value) (P : string) : value :=
  match O with
  | VNull => VUndefined
  | VRecord r =>
      match r !! P with
      | Some j => of_json j
      | None => ObjectPrototype_Get receiver_prototype P
      end
  | _ => ObjectPrototype_Get receiver_prototype P
  end.

(** [v[P]] for a value that is not an accumulator.  The built-in functions
    and the wrappers of primitives are read as objects that inherit from
    [Object.prototype] and have no named property of their own: the script
    reads them only at the data field names [CustomerName], [City], [Brand],
    [Model] and [WarrantyPeriod], and only when they are truthy (never
    undefined or null). *)
Definition Get (v : value) (P : string) : value :=
  match v with
  | VRecord _ => inherited_Get v VObjectPrototype P
  | VObjectPrototype => ObjectPrototype_Get VNull P
  | _ => ObjectPrototype_Get VObjectPrototype P
  end.

(** An ordinary object built by the script: own data properties in creation
    order, and the prototype. *)
Record object := Object {
  properties : list (string * value);
  prototype : value
}.

#[global] Instance object_eq_dec : EqDecision object.
Proof. solve_decision. Defined.

(** The object literal [{}] *)
Definition empty_object : object :=
  {| properties := []; prototype := VObjectPrototype |}.

Fixpoint own (P : string) (l : list (string * value)) : option value :=
  match l with
  | [] => None
  | (k, v) :: l => if bool_decide (k = P) then Some v else own P l
  end.

Fixpoint update (P : string) (V : value) (l : list (string * value)) :
    list (string * value) :=
  match l with
  | [] => []
  | (k, v) :: l =>
      if bool_decide (k = P) then (k, V) :: l else (k, v) :: update P V l
  end.

(** [O[P]] *)
Definition object_Get (O : object) (P : string) : value :=
  match own P (properties O) with
  | Some v => v
  | None => inherited_Get (prototype O) (prototype O) P
  end.

(** Whether the lookup of [P] from the prototype of an object ends at the
    accessor [__proto__] of [Object.prototype]. *)
Definition inherits_proto_accessor (proto : value) (P : string) : bool :=
  bool_decide (P = "__proto__") &&
  match proto with
  | VNull => false
  | VRecord r => bool_decide (r !! P = None)
  | _ => true
  end.

(** The setter of [__proto__]: an object or null becomes the prototype, any
    other value is ignored. *)
Definition SetPrototypeOf (O : object) (V : value) : object :=
  match V with
  | VNull | VRecord _ | VObjectPrototype | VFunction _ =>
      {| properties := properties O; prototype := V |}
  | _ => O
  end.

(** [O[P] = V] *)
Definition object_Set (O : object) (P : string) (V : value) : object :=
  match own P (properties O) with
  | Some _ => {| properties := update P V (properties O); prototype := prototype O |}
  | None =>
      if inherits_proto_accessor (prototype O) P then SetPrototypeOf O V
      else {| properties := properties O ++ [(P, V)]; prototype := prototype O |}
  end.

(** *** Enumeration order

    An array index is a canonical numeric string whose value is below
    [2^32 - 1].  OrdinaryOwnPropertyKeys lists the array indices in ascending
    numeric order, then the other names in creation order. *)

Definition array_index (P : string) : option N :=
  match read_digits 10 (bytes P) with
  | ((_ :: _) as ds, []) =>
      let n := Z.to_N (digits_value 10 ds) in
      if bool_decide (pretty n = P ∧ n < 4294967295)%N then Some n else None
  | _ => None
  end.

Definition index_le (a b : N * (string * value)) : Prop := (a.1 ≤ b.1)%N.

#[global] Instance index_le_dec : RelDecision index_le.
Proof. intros a b. unfold index_le. apply _. Defined.

Definition indexed (l : list (string * value)) : list (N * (string * value)) :=
  omap (λ kv, (λ n, (n, kv)) <$> array_index kv.1) l.

Definition named (l : list (string * value)) : list (string * value) :=
  filter (λ kv, array_index kv.1 = None) l.

(** [Object.entries(O)] *)
Definition entries (O : object) : list (string * value) :=
  (snd <$> merge_sort index_le (indexed (properties O))) ++ named (properties O).

(** [Object.keys(O)] *)
Definition keys (O : object) : list string := fst <$> entries O.

(** [Object.values(O)] *)
Definition values (O : object) : list value := snd <$> entries O.

End JS.

Import JS.

(** ** Helpers of the script *)

(** The page a function runs on: the elements of the document that have an
    id with what was last written to them, the decoded pairs of the query
    string in order, and the JSON resources that can be fetched. *)
Inductive content :=
  | textContent (s : string)
  | innerHTML (s : string).

Record page := Page {
  document : gmap string content;
  search : list (string * string);
  resources : gmap string (list record)
}.

(** [loadJSON(path)]: the parsed array, or nothing when the fetch or the
    parse fails (the promise is rejected). *)
Definition loadJSON (pg : page) (path : string) : option (list record) :=
  resources pg !! path.

Definition indexBy (items : list record) (key : string) : object :=
  foldl (λ acc item,
           object_Set acc (ToPropertyKey (Get (VRecord item) key)) (VRecord item))
        empty_object items.

Fixpoint replaceAll (s : string) (pattern : ascii) (replacement : string) : string :=
  match s with
  | EmptyString => EmptyString
  | String c s =>
      (if bool_decide (c = pattern) then replacement else String c EmptyString)
      +:+ replaceAll s pattern replacement
  end.

Definition escapeHTML (str : value) : string :=
  replaceAll
    (replaceAll
       (replaceAll
          (replaceAll
             (replaceAll (ToString (coalesce str (VString ""))) "&" "&amp;")
             "<" "&lt;")
          ">" "&gt;")
       "034" "&quot;")
    "'" "&#039;".

Definition groupCount (items : list record) (key : string) : object :=
  foldl (λ acc item,
           let P := ToPropertyKey (Get (VRecord item) key) in
           object_Set acc P
             (addition (logical_or (object_Get acc P) (VNumber (of_Z 0)))
                       (VNumber (of_Z 1))))
        empty_object items.

Definition groupSum (items : list record) (key valueKey : string) : object :=
  foldl (λ acc item,
           let P := ToPropertyKey (Get (VRecord item) key) in
           object_Set acc P
             (addition (logical_or (object_Get acc P) (VNumber (of_Z 0)))
                       (Get (VRecord item) valueKey)))
        empty_object items.

(** [new URLSearchParams(window.location.search).get(name)]: the value of
    the first pair of that name, or null. *)
Definition getParam (pg : page) (name : string) : value :=
  match list_find (λ nv, nv.1 = name) (search pg) with
  | Some (_, (_, v)) => VString v
  | None => VNull
  end.

(** The conversion of a value assigned to [textContent], a nullable string:
    null and undefined give the empty string. *)
Definition nullable_DOMString (v : value) : string :=
  match v with
  | VNull | VUndefined => ""
  | _ => ToString v
  end.

(** The conversion of a value assigned to [innerHTML], a string for which
    null gives the empty string. *)
Definition DOMString (v : value) : string :=
  match v with
  | VNull => ""
  | _ => ToString v
  end.

Definition setText (id : string) (v : value) (doc : gmap string content) :
    gmap string content :=
  match doc !! id with
  | Some _ => <[id := textContent (nullable_DOMString v)]> doc
  | None => doc
  end.

Definition setHTML (id : string) (v : value) (doc : gmap string content) :
    gmap string content :=
  match doc !! id with
  | Some _ => <[id := innerHTML (DOMString v)]> doc
  | None => doc
  end.

(** ** The page functions

    Each one is an async function: it is fulfilled with the document it
    leaves, or rejected when a resource cannot be loaded.  [formatTRY] is
    [Intl.NumberFormat("tr-TR", {style: "currency", currency: "TRY"}).format],
    which belongs to the host and is kept abstract. *)

Inductive outcome :=
  | Fulfilled (doc : gmap string content)
  | Rejected (doc : gmap string content).

Definition outcome_document (o : outcome) : gmap string content :=
  match o with
  | Fulfilled doc | Rejected doc => doc
  end.

Definition nl : string := String "010" EmptyString.
Definition dq : string := String "034" EmptyString.

(** A template literal: the spans and the converted substitutions in order. *)
Definition template (parts : list string) : string := String.concat "" parts.

(** [array.join("")] *)
Definition join (parts : list string) : string := String.concat "" parts.

(** [array.find(x => x[field] === v)] *)
Definition find (field : string) (v : value) (array : list record) : option record :=
  snd <$> list_find (λ x, strict_equal (Get (VRecord x) field) v = true) array.

(** [array.filter(x => x[field] === v)] *)
Definition where_ (field : string) (v : value) (array : list record) : list record :=
  filter (λ x, strict_equal (Get (VRecord x) field) v = true) array.

(** [const x = await loadJSON(e)], and the rest of the function. *)
Notation "'await' x ← e 'of' pg ; k" :=
  (match loadJSON pg e with
   | Some x => k
   | None => Rejected (document pg)
   end)
  (at level 10, x name, e at level 9, pg at level 9, k at level 200).

Definition field (r : record) (name : string) : value := Get (VRecord r) name.

Section Pages.

Variable formatTRY : value → string.

Definition initDashboard (pg : page) : outcome :=
  let doc := document pg in
  match doc !! "totalOrders" with
  | None => Fulfilled doc
  | Some _ =>
      await orders ← "data/orders.json" of pg;
      await payments ← "data/payments.json" of pg;
      await deliveries ← "data/deliveries.json" of pg;
      let doc := setText "totalOrders" (VNumber (of_nat (length orders))) doc in
      let revenue :=
        foldl (λ sum p, addition sum (field p "Amount")) (VNumber (of_Z 0)) payments in
      let doc := setText "totalRevenue" (VString (formatTRY revenue)) doc in
      let delivered := length (where_ "Status" (VString "Delivered") orders) in
      let doc := setText "deliveredOrders" (VNumber (of_nat delivered)) doc in
      let inTransit := length (where_ "Status" (VString "In Transit") deliveries) in
      let doc := setText "inTransit" (VNumber (of_nat inTransit)) doc in
      let doc :=
        match doc !! "orderStatusList" with
        | Some _ =>
            let orderStatusCounts := groupCount orders "Status" in
            <["orderStatusList" :=
                innerHTML
                  (join ((λ '(status, count),
                            template ["<li>"; escapeHTML (VString status);
                                      ": <strong>"; ToString count;
                                      "</strong></li>"])
                         <$> entries orderStatusCounts))]> doc
        | None => doc
        end in
      let doc :=
        match doc !! "paymentMethodList" with
        | Some _ =>
            let paymentSums := groupSum payments "PaymentMethod" "Amount" in
            <["paymentMethodList" :=
                innerHTML
                  (join ((λ '(method, amount),
                            template ["<li>"; escapeHTML (VString method);
                                      ": <strong>"; formatTRY amount;
                                      "</strong></li>"])
                         <$> entries paymentSums))]> doc
        | None => doc
        end in
      Fulfilled doc
  end.

(** The label of the customer [c] found for the record [o]: name and city,
    or the placeholder made of the foreign key. *)
Definition customerLabel (c : value) (o : record) : string :=
  if ToBoolean c
  then template [escapeHTML (Get c "CustomerName"); " (";
                 escapeHTML (Get c "City"); ")"]
  else template ["#"; ToString (field o "CustomerID")].

Definition ordersRow (customerById : object) (o : record) : string :=
  let c := object_Get customerById (ToPropertyKey (field o "CustomerID")) in
  template
    [nl; "      <tr onclick="; dq; "location.href='order.html?id=";
     ToString (field o "OrderID"); "'"; dq; ">"; nl;
     "        <td>"; ToString (field o "OrderID"); "</td>"; nl;
     "        <td>"; customerLabel c o; "</td>"; nl;
     "        <td>#"; ToString (field o "StoreID"); "</td>"; nl;
     "        <td>"; ToString (field o "OrderDate"); "</td>"; nl;
     "        <td>"; escapeHTML (field o "Status"); "</td>"; nl;
     "        <td class="; dq; "right"; dq; ">";
     formatTRY (field o "TotalAmount"); "</td>"; nl;
     "      </tr>"; nl; "    "].

Definition loadOrdersTable (pg : page) : outcome :=
  let doc := document pg in
  match doc !! "ordersBody" with
  | None => Fulfilled doc
  | Some _ =>
      await orders ← "data/orders.json" of pg;
      await customers ← "data/customers.json" of pg;
      let customerById := indexBy customers "CustomerID" in
      Fulfilled
        (<["ordersBody" := innerHTML (join (ordersRow customerById <$> orders))]> doc)
  end.

Definition itemLine (productById : object) (i : record) : string :=
  let p := object_Get productById (ToPropertyKey (field i "ProductID")) in
  let prodLabel :=
    if ToBoolean p
    then template [escapeHTML (Get p "Brand"); " "; escapeHTML (Get p "Model");
                   " (ID "; ToString (field i "ProductID"); ")"]
    else template ["Product "; ToString (field i "ProductID")] in
  template ["<li>"; prodLabel; " — "; ToString (field i "Quantity"); " × ";
            formatTRY (field i "UnitPrice"); "</li>"].

Definition loadOrderDetail (pg : page) : outcome :=
  let doc := document pg in
  match doc !! "orderInfo" with
  | None => Fulfilled doc
  | Some _ =>
      let orderId := VNumber (ToNumber (getParam pg "id")) in
      if negb (ToBoolean orderId) then Fulfilled doc
      else
        await orders ← "data/orders.json" of pg;
        await items ← "data/order_items.json" of pg;
        await payments ← "data/payments.json" of pg;
        await deliveries ← "data/deliveries.json" of pg;
        await customers ← "data/customers.json" of pg;
        await products ← "data/products.json" of pg;
        let customerById := indexBy customers "CustomerID" in
        let productById := indexBy products "ProductID" in
        match find "OrderID" orderId orders with
        | None => Fulfilled doc
        | Some order =>
            let c := object_Get customerById (ToPropertyKey (field order "CustomerID")) in
            let doc :=
              setHTML "orderInfo"
                (VString
                   (template
                      [nl; "    <h3>Order #"; ToString (field order "OrderID");
                       "</h3>"; nl;
                       "    <p>Status: <strong>"; escapeHTML (field order "Status");
                       "</strong></p>"; nl;
                       "    <p>Customer: "; customerLabel c order; "</p>"; nl;
                       "    <p>Total: <strong>";
                       formatTRY (field order "TotalAmount"); "</strong></p>"; nl;
                       "  "]))
                doc in
            let orderItems := where_ "OrderID" orderId items in
            let doc :=
              match doc !! "itemsList" with
              | Some _ =>
                  <["itemsList" :=
                      innerHTML (join (itemLine productById <$> orderItems))]> doc
              | None => doc
              end in
            let doc :=
              setHTML "paymentInfo"
                (VString
                   match find "OrderID" orderId payments with
                   | Some payment =>
                       template ["<h3>Payment</h3><p>";
                                 escapeHTML (field payment "PaymentMethod"); " — ";
                                 formatTRY (field payment "Amount"); "</p>"]
                   | None =>
                       template ["<h3>Payment</h3><p class="; dq; "muted"; dq;
                                 ">No payment record</p>"]
                   end)
                doc in
            let doc :=
              setHTML "deliveryInfo"
                (VString
                   match find "OrderID" orderId deliveries with
                   | Some delivery =>
                       template ["<h3>Delivery</h3>"; nl;
                                 "       <p>";
                                 escapeHTML (field delivery "ShippingCompany");
                                 "</p>"; nl;
                                 "       <p>Tracking: ";
                                 escapeHTML (field delivery "TrackingNumber");
                                 "</p>"; nl;
                                 "       <p>Status: ";
                                 escapeHTML (field delivery "Status"); "</p>"]
                   | None =>
                       template ["<h3>Delivery</h3><p class="; dq; "muted"; dq;
                                 ">No delivery record</p>"]
                   end)
                doc in
            Fulfilled doc
        end
  end.

(** The inline reduction of [loadServiceDashboard]. *)
Definition byProduct (services : list record) : object :=
  foldl (λ acc s,
           let P := ToPropertyKey (field s "ProductID") in
           object_Set acc P
             (addition (logical_or (object_Get acc P) (VNumber (of_Z 0)))
                       (VNumber (of_Z 1))))
        empty_object services.

Definition productLine (productById : object) (entry : string * value) : string :=
  let '(pid, count) := entry in
  let p := object_Get productById
             (ToPropertyKey (VNumber (ToNumber (VString pid)))) in
  let label :=
    if ToBoolean p
    then template [escapeHTML (Get p "Brand"); " "; escapeHTML (Get p "Model");
                   " (ID "; pid; ")"]
    else template ["Product #"; pid] in
  template ["<li>"; label; ": <strong>"; ToString count;
            "</strong> request(s)</li>"].

Definition loadServiceDashboard (pg : page) : outcome :=
  let doc := document pg in
  match doc !! "totalServices" with
  | None => Fulfilled doc
  | Some _ =>
      await services ← "data/service_requests.json" of pg;
      await products ← "data/products.json" of pg;
      let productById := indexBy products "ProductID" in
      let count status :=
        VNumber (of_nat (length (where_ "Status" (VString status) services))) in
      let doc := setText "totalServices" (VNumber (of_nat (length services))) doc in
      let doc := setText "openServices" (count "Open") doc in
      let doc := setText "progressServices" (count "In Progress") doc in
      let doc := setText "closedServices" (count "Closed") doc in
      let doc :=
        match doc !! "serviceByProduct" with
        | Some _ =>
            <["serviceByProduct" :=
                innerHTML
                  (join (productLine productById <$> entries (byProduct services)))]>
              doc
        | None => doc
        end in
      Fulfilled doc
  end.

Definition servicesRow (customerById productById : object) (s : record) : string :=
  let c := object_Get customerById (ToPropertyKey (field s "CustomerID")) in
  let p := object_Get productById (ToPropertyKey (field s "ProductID")) in
  let customerLabel :=
    if ToBoolean c then escapeHTML (Get c "CustomerName")
    else template ["#"; ToString (field s "CustomerID")] in
  let productLabel :=
    if ToBoolean p
    then template [escapeHTML (Get p "Brand"); " "; escapeHTML (Get p "Model")]
    else template ["#"; ToString (field s "ProductID")] in
  template
    [nl; "      <tr onclick="; dq; "location.href='service.html?id=";
     ToString (field s "ServiceID"); "'"; dq; ">"; nl;
     "        <td>"; ToString (field s "ServiceID"); "</td>"; nl;
     "        <td>"; customerLabel; "</td>"; nl;
     "        <td>"; productLabel; "</td>"; nl;
     "        <td>"; ToString (field s "RequestDate"); "</td>"; nl;
     "        <td>"; escapeHTML (field s "Status"); "</td>"; nl;
     "      </tr>"; nl; "    "].

Definition loadServiceRequestsTable (pg : page) : outcome :=
  let doc := document pg in
  match doc !! "servicesBody" with
  | None => Fulfilled doc
  | Some _ =>
      await services ← "data/service_requests.json" of pg;
      await customers ← "data/customers.json" of pg;
      await products ← "data/products.json" of pg;
      let customerById := indexBy customers "CustomerID" in
      let productById := indexBy products "ProductID" in
      Fulfilled
        (<["servicesBody" :=
             innerHTML (join (servicesRow customerById productById <$> services))]>
           doc)
  end.

Definition loadServiceDetail (pg : page) : outcome :=
  let doc := document pg in
  match doc !! "serviceInfo" with
  | None => Fulfilled doc
  | Some _ =>
      let id := VNumber (ToNumber (getParam pg "id")) in
      if negb (ToBoolean id) then Fulfilled doc
      else
        await services ← "data/service_requests.json" of pg;
        await customers ← "data/customers.json" of pg;
        await products ← "data/products.json" of pg;
        let customerById := indexBy customers "CustomerID" in
        let productById := indexBy products "ProductID" in
        match find "ServiceID" id services with
        | None => Fulfilled doc
        | Some s =>
            let c := object_Get customerById (ToPropertyKey (field s "CustomerID")) in
            let p := object_Get productById (ToPropertyKey (field s "ProductID")) in
            let productLabel :=
              if ToBoolean p
              then template [escapeHTML (Get p "Brand"); " ";
                             escapeHTML (Get p "Model"); " (Warranty: ";
                             ToString (Get p "WarrantyPeriod"); " mo)"]
              else template ["#"; ToString (field s "ProductID")] in
            Fulfilled
              (setHTML "serviceInfo"
                 (VString
                    (template
                       [nl; "    <h3>Service Request #";
                        ToString (field s "ServiceID"); "</h3>"; nl;
                        "    <p>Status: <strong>"; escapeHTML (field s "Status");
                        "</strong></p>"; nl;
                        "    <p>Customer: "; customerLabel c s; "</p>"; nl;
                        "    <p>Product: "; productLabel; "</p>"; nl;
                        "    <p>Date: "; ToString (field s "RequestDate"); "</p>"; nl;
                        "    <h4 style="; dq; "margin-top:14px;"; dq;
                        ">Issue Description</h4>"; nl;
                        "    <p>"; escapeHTML (field s "IssueDescription"); "</p>"; nl;
                        "  "]))
                 doc)
        end
  end.

End Pages.

(** ** Notions of the specification *)

(** The property key under which a record is filed: its field [key],
    converted as [acc[item[key]]] converts it. *)
Definition key_of (key : string) (item : record) : string :=
  ToPropertyKey (field item key).

(** The shape shared by the reductions of the script: each item assigns, to
    the property it is filed under, a value computed from the accumulator. *)
Definition assign_each (kf : record → string) (vf : object → record → value)
    (items : list record) : object :=
  foldl (λ acc item, object_Set acc (kf item) (vf acc item)) empty_object items.

(** The distinct elements of a list, each at its first appearance. *)
Fixpoint first_appearance (l : list string) : list string :=
  match l with
  | [] => []
  | x :: l => x :: filter (λ y, y ≠ x) (first_appearance l)
  end.

(** [s.includes(needle)] *)
Fixpoint includes (needle s : string) : bool :=
  String.prefix needle s ||
  match s with
  | EmptyString => false
  | String _ s => includes needle s
  end.

(** Whether a string begins like the text of a number: with a digit, a
    minus sign, or the first letter of [NaN] or [Infinity]. *)
Definition begins_numeric (s : string) : bool :=
  match s with
  | EmptyString => false
  | String c _ => bool_decide (c ∈ list_ascii_of_string "0123456789-NI")
  end.

(** Whether the character [c] occurs in [s]. *)
Fixpoint occurs (c : ascii) (s : string) : bool :=
  match s with
  | EmptyString => false
  | String a s => bool_decide (a = c) || occurs c s
  end.

(** The HTML entity of a reserved character; any other character stands
    for itself. *)
Definition entity (c : ascii) : string :=
  if bool_decide (c = "&"%char) then "&amp;"
  else if bool_decide (c = "<"%char) then "&lt;"
  else if bool_decide (c = ">"%char) then "&gt;"
  else if bool_decide (c = "034"%char) then "&quot;"
  else if bool_decide (c = "'"%char) then "&#039;"
  else String c EmptyString.

Fixpoint escape_each (s : string) : string :=
  match s with
  | EmptyString => EmptyString
  | String c s => entity c +:+ escape_each s
  end.

(** The sum of the values of an object,
    [Object.values(O).reduce((a, b) => a + b, 0)]. *)
Definition sum_values (O : object) : value :=
  foldl addition (VNumber (of_Z 0)) (values O).

(** The sum of a field over a sequence,
    [items.reduce((sum, p) => sum + p[valueKey], 0)]. *)
Definition sum_field (items : list record) (valueKey : string) : value :=
  foldl (λ sum p, addition sum (field p valueKey)) (VNumber (of_Z 0)) items.

(** The finite number a value is, or zero; the total over a list; and the
    lists that hold finite numbers only. *)
Definition finite_part (v : value) : Qc :=
  match v with
  | VNumber (Finite q) => q
  | _ => 0%Qc
  end.

Definition finite_sum (vs : list value) : Qc :=
  foldr (λ v s, (finite_part v + s)%Qc) 0%Qc vs.

Definition is_finite (v : value) : Prop := ∃ q, v = VNumber (Finite q).

(** Ascending order of array indices. *)
Definition index_before (a b : string) : Prop :=
  match array_index a, array_index b with
  | Some m, Some n => (m ≤ n)%N
  | _, _ => False
  end.

Definition is_index (P : string) : Prop := is_Some (array_index P).

(** The order of [Object.keys]: with [F] the names in creation order, the
    array indices come first in ascending numeric order, then the other
    names as they stand in [F]. *)
Definition enumeration_order (ks F : list string) : Prop :=
  ∃ idx, ks = idx ++ filter (λ P, ¬ is_index P) F ∧
         idx ≡ₚ filter is_index F ∧
         Sorted index_before idx.

(** The six page functions and the container each one looks for first. *)
Inductive view :=
  | Dashboard
  | OrdersTable
  | OrderDetail
  | ServiceDashboard
  | ServiceRequestsTable
  | ServiceDetail.

Definition render (formatTRY : value → string) (v : view) : page → outcome :=
  match v with
  | Dashboard => initDashboard formatTRY
  | OrdersTable => loadOrdersTable formatTRY
  | OrderDetail => loadOrderDetail formatTRY
  | ServiceDashboard => loadServiceDashboard
  | ServiceRequestsTable => loadServiceRequestsTable
  | ServiceDetail => loadServiceDetail
  end.

Definition marker (v : view) : string :=
  match v with
  | Dashboard => "totalOrders"
  | OrdersTable => "ordersBody"
  | OrderDetail => "orderInfo"
  | ServiceDashboard => "totalServices"
  | ServiceRequestsTable => "servicesBody"
  | ServiceDetail => "serviceInfo"
  end.

(** ** Sample data *)

Definition number_field (z : Z) : json := JNumber (Qc_of_Z z).
Definition ada : record :=
  list_to_map [("CustomerID", number_field 1); ("CustomerName", JString "Ada");
               ("City", JString "Izmir")].
Definition bora : record :=
  list_to_map [("CustomerID", JString "1"); ("CustomerName", JString "Bora");
               ("City", JString "Bursa")].


Definition request (id customer product : Z) (status : string) : record :=
  list_to_map [("ServiceID", number_field id); ("CustomerID", number_field customer);
               ("ProductID", number_field product); ("Status", JString status);
               ("RequestDate", JString "2024-03-01");
               ("IssueDescription", JString "No power")].

Definition payment (order amount : Z) (method : string) : record :=
  list_to_map [("OrderID", number_field order); ("Amount", number_field amount);
               ("PaymentMethod", JString method)].

Definition unpaid : record :=
  list_to_map [("OrderID", number_field 1); ("PaymentMethod", JString "Card")].

Definition order (id customer : json) : record :=
  list_to_map [("OrderID", id); ("CustomerID", customer);
               ("StoreID", number_field 3); ("OrderDate", JString "2024-02-29");
               ("Status", JString "Delivered"); ("TotalAmount", number_field 100)].

Definition detail_page (id : string) : page :=
  {| document := {[ "orderInfo" := innerHTML "";
                    "serviceInfo" := innerHTML "" ]};
     search := [("id", id)];
     resources := ∅ |}.

Definition other_page : page :=
  {| document := {[ "footer" := textContent "2024" ]};
     search := [];
     resources := ∅ |}.

(** The order page of the end-to-end example: one order, its payment, no
    delivery. *)
Definition order_page : page :=
  {| document :=
       list_to_map [("orderInfo", innerHTML ""); ("itemsList", innerHTML "");
                    ("paymentInfo", innerHTML ""); ("deliveryInfo", innerHTML "")];
     search := [("id", "1")];
     resources :=
       list_to_map [("data/orders.json", [order (number_field 1) (number_field 5)]);
                    ("data/order_items.json", []);
                    ("data/payments.json", [payment 1 100 "Card"]);
                    ("data/deliveries.json", []);
                    ("data/customers.json", [ada]);
                    ("data/products.json", [])] |}.


(** ** Further notions *)

(** The records of a sequence that are filed under the property key [P]. *)
Definition filed_under (key P : string) (items : list record) : list record :=
  filter (λ item, key_of key item = P) items.

Definition product (id : json) (brand model : string) : record :=
  list_to_map [("ProductID", id); ("Brand", JString brand); ("Model", JString model);
               ("WarrantyPeriod", number_field 24)].


(** The five characters that [escapeHTML] replaces. *)
Definition reserved (c : ascii) : bool :=
  bool_decide (c ∈ ["&"; "<"; ">"; "034"; "'"]%char).

(** The strings that hold no reserved character. *)
Fixpoint plain (s : string) : bool :=
  match s with
  | EmptyString => true
  | String c s => negb (reserved c) && plain s
  end.

(** Whether [s] begins with the rest of one of the five entities, after the
    ampersand. *)
Definition entity_tail (s : string) : bool :=
  String.prefix "amp;" s || String.prefix "lt;" s || String.prefix "gt;" s
  || String.prefix "quot;" s || String.prefix "#039;" s.

(** The strings in which every ampersand begins one of the five entities. *)
Fixpoint entities_only (s : string) : bool :=
  match s with
  | EmptyString => true
  | String c s =>
      (if bool_decide (c = "&"%char) then entity_tail s else true)
      && entities_only s
  end.

(** The text that an escaped string stands for: each of the five entities
    read back as its character. *)
Fixpoint unescape (s : string) : string :=
  match s with
  | EmptyString => EmptyString
  | String "&" (String "a" (String "m" (String "p" (String ";" s)))) =>
      String "&" (unescape s)
  | String "&" (String "l" (String "t" (String ";" s))) =>
      String "<" (unescape s)
  | String "&" (String "g" (String "t" (String ";" s))) =>
      String ">" (unescape s)
  | String "&" (String "q" (String "u" (String "o" (String "t" (String ";" s))))) =>
      String "034" (unescape s)
  | String "&" (String "#" (String "0" (String "3" (String "9" (String ";" s))))) =>
      String "'" (unescape s)
  | String c s => String c (unescape s)
  end.


(** The resources each page function loads, the containers it writes to,
    and its test on the query: the two detail functions go on only when the
    [id] converts to a number other than zero and NaN. *)
Definition needs (v : view) : list string :=
  match v with
  | Dashboard => ["data/orders.json"; "data/payments.json"; "data/deliveries.json"]
  | OrdersTable => ["data/orders.json"; "data/customers.json"]
  | OrderDetail =>
      ["data/orders.json"; "data/order_items.json"; "data/payments.json";
       "data/deliveries.json"; "data/customers.json"; "data/products.json"]
  | ServiceDashboard => ["data/service_requests.json"; "data/products.json"]
  | ServiceRequestsTable | ServiceDetail =>
      ["data/service_requests.json"; "data/customers.json"; "data/products.json"]
  end.

Definition targets (v : view) : list string :=
  match v with
  | Dashboard =>
      ["totalOrders"; "totalRevenue"; "deliveredOrders"; "inTransit";
       "orderStatusList"; "paymentMethodList"]
  | OrdersTable => ["ordersBody"]
  | OrderDetail => ["orderInfo"; "itemsList"; "paymentInfo"; "deliveryInfo"]
  | ServiceDashboard =>
      ["totalServices"; "openServices"; "progressServices"; "closedServices";
       "serviceByProduct"]
  | ServiceRequestsTable => ["servicesBody"]
  | ServiceDetail => ["serviceInfo"]
  end.

Definition passes (v : view) (pg : page) : bool :=
  match v with
  | OrderDetail | ServiceDetail => ToBoolean (VNumber (ToNumber (getParam pg "id")))
  | _ => true
  end.

Definition is_rejected (o : outcome) : bool :=
  match o with
  | Rejected _ => true
  | Fulfilled _ => false
  end.

(** A detail page whose [id] is the identifier of no order and of no
    service request. *)
Definition stale_page : page :=
  {| document :=
       list_to_map [("orderInfo", innerHTML "old"); ("serviceInfo", innerHTML "old")];
     search := [("id", "99")];
     resources :=
       list_to_map [("data/orders.json", [order (number_field 1) (number_field 5)]);
                    ("data/order_items.json", []);
                    ("data/payments.json", [payment 1 100 "Card"]);
                    ("data/deliveries.json", []);
                    ("data/customers.json", [ada]);
                    ("data/products.json", []);
                    ("data/service_requests.json", [request 7 1 2 "Open"])] |}.

(** The same data with the identifiers written as strings. *)
Definition quoted_page : page :=
  {| document :=
       list_to_map [("orderInfo", innerHTML "old"); ("serviceInfo", innerHTML "old")];
     search := [("id", "1")];
     resources :=
       list_to_map [("data/orders.json", [order (JString "1") (number_field 5)]);
                    ("data/order_items.json", []);
                    ("data/payments.json", []);
                    ("data/deliveries.json", []);
                    ("data/customers.json", [ada]);
                    ("data/products.json", []);
                    ("data/service_requests.json",
                     [<["ServiceID" := JString "1"]> (request 7 1 2 "Open")])] |}.


(** The codes of the ten digits, and the number that a list of digits
    writes in base ten. *)
Definition digit_code (c : N) : Prop := (48 ≤ c ≤ 57)%N.

Definition horner (l : list N) : N := foldl (λ acc d, acc * 10 + d)%N 0%N l.

(** A service page: one request of a known customer, for a product that is
    not in the product set. *)
Definition service_page : page :=
  {| document := list_to_map [("serviceInfo", innerHTML "")];
     search := [("id", "7")];
     resources :=
       list_to_map [("data/service_requests.json", [request 7 1 2 "Open"]);
                    ("data/customers.json", [ada]);
                    ("data/products.json", [])] |}.

(** The assignment to a container that is made only when the container is
    there, which is the shape of every assignment of the page functions; a
    sequence of them; and a page with another document. *)
Definition write (id : string) (c : content) (doc : gmap string content) :
    gmap string content :=
  match doc !! id with
  | Some _ => <[id := c]> doc
  | None => doc
  end.

Definition writes (ws : list (string * content)) (doc : gmap string content) :
    gmap string content :=
  foldl (λ doc w, write w.1 w.2 doc) doc ws.

Definition on_document (doc : gmap string content) (pg : page) : page :=
  {| document := doc; search := search pg; resources := resources pg |}.

(** The values that [String] converts: every value but a record with a field
    named [toString], at which the conversion throws a TypeError (a field of
    a JSON record is never a function). *)
Definition converts (v : value) : Prop :=
  match v with
  | VRecord r => r !! "toString" = None
  | _ => True
  end.

(** [Number.MAX_SAFE_INTEGER]: up to it every natural number is a binary64
    value, which [JSON.parse] and [String] read and write digit for digit. *)
Definition MAX_SAFE_INTEGER : N := 2 ^ 53 - 1.

(** The fields that the page functions write into [innerHTML] as they are,
    without [escapeHTML]. *)
Definition raw_fields : list string :=
  ["OrderID"; "CustomerID"; "StoreID"; "OrderDate"; "ProductID"; "Quantity";
   "ServiceID"; "RequestDate"; "WarrantyPeriod"].

(** A page whose data carries no markup: no text of [formatTRY] and no raw
    field of a record of a resource holds a reserved character.  The
    fragments written then create the elements of the templates only, none
    of which has an id, so that the elements with an id are those of the
    document of the page. *)
Definition inert (formatTRY : value → string) (pg : page) : Prop :=
  (∀ x, plain (formatTRY x) = true) ∧
  map_Forall
    (λ _ items,
       Forall (λ r, Forall (λ name, plain (ToString (field r name)) = true)
                           raw_fields)
              items)
    (resources pg).
(** ** Own properties and assignment *)

Lemma own_None P l : own P l = None ↔ P ∉ l.*1.
Proof.
  induction l as [|[k v] l IH]; simpl.
  - split; [intros _; apply not_elem_of_nil | done].
  - rewrite not_elem_of_cons.
    destruct (bool_decide_reflect (k = P)) as [Hk|Hk].
    + split; [done | intros [? _]; congruence].
    + rewrite IH. split; [intros; split; [congruence | done] | tauto].
Qed.

Lemma own_Some_elem P v l : own P l = Some v → P ∈ l.*1.
Proof.
  intros H. destruct (decide (P ∈ l.*1)) as [|Hn]; [done|].
  apply own_None in Hn. congruence.
Qed.

Lemma own_snoc P k v l :
  own P (l ++ [(k, v)]) =
  match own P l with
  | Some w => Some w
  | None => if bool_decide (k = P) then Some v else None
  end.
Proof.
  induction l as [|[k' v'] l IH]; simpl; [done|].
  by destruct (bool_decide (k' = P)).
Qed.

Lemma own_update P k v l :
  own P (update k v l) =
  if bool_decide (k = P) then (λ _, v) <$> own P l else own P l.
Proof.
  induction l as [|[k' v'] l IH]; simpl.
  - by destruct (bool_decide (k = P)).
  - destruct (bool_decide_reflect (k' = k)) as [->|Hne]; simpl.
    + by destruct (bool_decide_reflect (k = P)).
    + rewrite IH.
      destruct (bool_decide_reflect (k' = P)) as [->|?]; [|done].
      by rewrite bool_decide_eq_false_2 by congruence.
Qed.

Lemma update_names k v l : (update k v l).*1 = l.*1.
Proof.
  induction l as [|[k' v'] l IH]; simpl; [done|].
  destruct (bool_decide (k' = k)); simpl; [done | by f_equal].
Qed.

Lemma inherits_proto_accessor_ne proto P :
  P ≠ "__proto__" → inherits_proto_accessor proto P = false.
Proof.
  intros H. unfold inherits_proto_accessor.
  by rewrite bool_decide_eq_false_2.
Qed.

(** An assignment to a name other than [__proto__] leaves the prototype
    alone, and either overwrites the own property in place or creates it
    after the others. *)
Lemma object_Set_own O P V :
  P ≠ "__proto__" →
  prototype (object_Set O P V) = prototype O ∧
  properties (object_Set O P V) =
    match own P (properties O) with
    | Some _ => update P V (properties O)
    | None => properties O ++ [(P, V)]
    end.
Proof.
  intros HP. unfold object_Set.
  destruct (own P (properties O)); simpl; [done|].
  by rewrite inherits_proto_accessor_ne.
Qed.

Lemma ObjectPrototype_Get_other proto P :
  P ∉ ObjectPrototype_names → ObjectPrototype_Get proto P = VUndefined.
Proof.
  unfold ObjectPrototype_names. rewrite not_elem_of_cons. intros [H1 H2].
  unfold ObjectPrototype_Get.
  rewrite bool_decide_eq_false_2 by done.
  rewrite (bool_decide_eq_false_2 (P ∈ ObjectPrototype_methods)) by done.
  case_bool_decide as Hc; [|done].
  exfalso. apply H2. rewrite Hc. unfold ObjectPrototype_methods. set_solver.
Qed.

Lemma first_appearance_elem x l : x ∈ first_appearance l ↔ x ∈ l.
Proof.
  induction l as [|a l IH]; simpl; [done|].
  rewrite !elem_of_cons, list_elem_of_filter, IH.
  destruct (decide (x = a)); tauto.
Qed.

Lemma first_appearance_snoc l x :
  first_appearance (l ++ [x]) =
  if decide (x ∈ l) then first_appearance l else first_appearance l ++ [x].
Proof.
  induction l as [|a l IH]; simpl.
  - destruct (decide (x ∈ [])) as [H|_]; [by apply elem_of_nil in H | done].
  - rewrite IH.
    destruct (decide (x ∈ l)) as [Hin|Hin];
      destruct (decide (x ∈ a :: l)) as [Hin'|Hin']; try done.
    + exfalso. apply Hin'. apply elem_of_cons. by right.
    + apply elem_of_cons in Hin' as [->|?]; [|done].
      rewrite filter_app, filter_cons, filter_nil.
      destruct (decide (a ≠ a)); [done | by rewrite app_nil_r].
    + rewrite filter_app, filter_cons, filter_nil.
      destruct (decide (x ≠ a)) as [|Heq]; [done|].
      exfalso. apply Hin'. apply dec_stable in Heq as ->. apply elem_of_cons. by left.
Qed.

Lemma first_appearance_NoDup l : NoDup (first_appearance l).
Proof.
  induction l as [|a l IH]; simpl; [constructor|].
  constructor; [|by apply NoDup_filter].
  rewrite list_elem_of_filter. tauto.
Qed.
(** ** The reductions *)

Lemma indexBy_assign_each items key :
  indexBy items key = assign_each (key_of key) (λ _ item, VRecord item) items.
Proof. reflexivity. Qed.

Lemma assign_each_snoc kf vf items x :
  assign_each kf vf (items ++ [x]) =
  object_Set (assign_each kf vf items) (kf x) (vf (assign_each kf vf items) x).
Proof. unfold assign_each. by rewrite foldl_snoc. Qed.

(** Without the name [__proto__], the prototype stays [Object.prototype]
    and the own properties are created in the order of first appearance. *)
Lemma assign_each_names kf vf items :
  "__proto__" ∉ kf <$> items →
  prototype (assign_each kf vf items) = VObjectPrototype ∧
  (properties (assign_each kf vf items)).*1 = first_appearance (kf <$> items).
Proof.
  induction items as [|x items IH] using rev_ind; [done|].
  rewrite fmap_app, not_elem_of_app. simpl.
  rewrite list_elem_of_singleton. intros [Hitems Hx].
  destruct (IH Hitems) as [Hproto Hnames].
  rewrite assign_each_snoc, first_appearance_snoc.
  set (O := assign_each kf vf items) in *.
  destruct (object_Set_own O (kf x) (vf O x)) as [-> ->]; [done|].
  split; [done|].
  destruct (own (kf x) (properties O)) as [w|] eqn:Hown.
  - rewrite update_names, Hnames.
    apply own_Some_elem in Hown. rewrite Hnames, first_appearance_elem in Hown.
    by rewrite decide_True.
  - apply own_None in Hown. rewrite Hnames, first_appearance_elem in Hown.
    rewrite decide_False by done.
    by rewrite fmap_app, Hnames.
Qed.

Lemma indexBy_own items key :
  NoDup (key_of key <$> items) →
  "__proto__" ∉ key_of key <$> items →
  ∀ item, item ∈ items →
    own (key_of key item) (properties (indexBy items key)) = Some (VRecord item).
Proof.
  rewrite indexBy_assign_each.
  induction items as [|x items IH] using rev_ind; [intros _ _ ? []%elem_of_nil|].
  rewrite fmap_app, NoDup_app, not_elem_of_app. simpl.
  intros (Hnd & Hfresh & _) [Hproto Hx%not_elem_of_cons] item Hitem.
  destruct Hx as [Hx _].
  rewrite assign_each_snoc.
  set (O := assign_each (key_of key) (λ _ item, VRecord item) items) in *.
  destruct (object_Set_own O (key_of key x) (VRecord x)) as [_ ->]; [done|].
  assert (own (key_of key x) (properties O) = None) as Hnone.
  { apply own_None. unfold O.
    destruct (assign_each_names (key_of key) (λ _ item, VRecord item) items Hproto)
      as [_ ->].
    rewrite first_appearance_elem. intros Hin.
    apply (Hfresh _ Hin). apply list_elem_of_singleton. done. }
  rewrite Hnone, own_snoc.
  apply elem_of_app in Hitem as [Hitem|Hitem%list_elem_of_singleton].
  - by rewrite (IH Hnd Hproto item Hitem).
  - subst item. by rewrite Hnone, bool_decide_eq_true_2.
Qed.

(** ** The index *)

Lemma indexBy_absent items key P :
  "__proto__" ∉ key_of key <$> items →
  P ∉ key_of key <$> items →
  P ∉ ObjectPrototype_names →
  object_Get (indexBy items key) P = VUndefined.
Proof.
  intros Hproto HP Hnames. unfold object_Get.
  destruct (assign_each_names (key_of key) (λ _ item, VRecord item) items Hproto)
    as [Hp Hn].
  rewrite <- indexBy_assign_each in Hp, Hn.
  assert (own P (properties (indexBy items key)) = None) as ->.
  { apply own_None. by rewrite Hn, first_appearance_elem. }
  rewrite Hp. simpl. by apply ObjectPrototype_Get_other.
Qed.

(** C1 (amended).  When the property keys of the records are pairwise
    distinct and none is [__proto__], the index built by [indexBy] answers
    each record at its own key, and answers undefined at every key that no
    record has and that is not the name of a property of
    [Object.prototype]. *)
Theorem indexBy_lookup items key :
  NoDup (key_of key <$> items) →
  "__proto__" ∉ key_of key <$> items →
  (∀ item, item ∈ items →
     object_Get (indexBy items key) (ToPropertyKey (field item key)) = VRecord item) ∧
  (∀ v, ToPropertyKey v ∉ key_of key <$> items →
        ToPropertyKey v ∉ ObjectPrototype_names →
        object_Get (indexBy items key) (ToPropertyKey v) = VUndefined).
Proof.
  intros Hnd Hproto. split.
  - intros item Hitem. unfold object_Get.
    change (ToPropertyKey (field item key)) with (key_of key item).
    by rewrite (indexBy_own items key Hnd Hproto item Hitem).
  - intros v Hv Hnames. by apply indexBy_absent.
Qed.

Lemma indexBy_lookup_witness :
  object_Get (indexBy [ada] "CustomerID") (ToPropertyKey (field ada "CustomerID"))
  = VRecord ada.
Proof.
  apply (indexBy_lookup [ada] "CustomerID").
  - apply (bool_decide_unpack _). vm_compute. exact I.
  - apply (bool_decide_unpack _). vm_compute. exact I.
  - apply list_elem_of_singleton. reflexivity.
Defined.

(** C1 as stated fails twice.  The key values [1] and ["1"] are distinct,
    yet both records are filed under the property key ["1"] and the lookup
    of the first answers the second; and the key ["constructor"], which
    occurs in no record, answers the function inherited from
    [Object.prototype]. *)
Lemma indexBy_claim_fails :
  (NoDup ((λ item, field item "CustomerID") <$> [ada; bora]) ∧
   object_Get (indexBy [ada; bora] "CustomerID")
     (ToPropertyKey (field ada "CustomerID")) = VRecord bora ∧
   VRecord bora ≠ VRecord ada) ∧
  ((VString "constructor" ∉ (λ item, field item "CustomerID") <$> [ada]) ∧
   object_Get (indexBy [ada] "CustomerID") (ToPropertyKey (VString "constructor"))
   = VFunction "Object").
Proof.
  repeat split.
  - apply (bool_decide_unpack _). vm_compute. exact I.
  - apply (bool_decide_unpack _). vm_compute. exact I.
  - apply (bool_decide_unpack _). vm_compute. exact I.
Qed.

(** ** Enumeration order *)

#[local] Instance index_le_total : Total index_le.
Proof. intros a b. unfold index_le. lia. Qed.

Lemma named_names l : (named l).*1 = filter (λ P, ¬ is_index P) l.*1.
Proof.
  unfold named, is_index.
  induction l as [|[k v] l IH]; [done|].
  rewrite fmap_cons, !filter_cons. simpl.
  destruct (decide (array_index k = None)) as [Hk|Hk];
    destruct (decide (¬ is_Some (array_index k))) as [Hk'|Hk'].
  - by rewrite fmap_cons, IH.
  - exfalso. apply Hk'. rewrite Hk. by intros [? ?].
  - exfalso. apply Hk. by apply eq_None_not_Some.
  - done.
Qed.

Lemma indexed_names l :
  (λ e : N * (string * value), e.2.1) <$> indexed l = filter is_index l.*1.
Proof.
  unfold indexed, is_index.
  induction l as [|[k v] l IH]; [done|].
  rewrite fmap_cons, filter_cons. simpl.
  destruct (decide (is_Some (array_index k))) as [[n Hk]|Hk].
  - rewrite Hk. simpl. f_equal. exact IH.
  - apply eq_None_not_Some in Hk. rewrite Hk. simpl. exact IH.
Qed.

Lemma indexed_sound l :
  Forall (λ e : N * (string * value), array_index e.2.1 = Some e.1) (indexed l).
Proof.
  apply Forall_forall. intros [n [k v]] Hin.
  apply list_elem_of_omap in Hin as ([k' v'] & _ & Hf). simpl in *.
  destruct (array_index k') eqn:Hk; simplify_eq/=. done.
Qed.

Lemma Sorted_with {A} (R : relation A) (P : A → Prop) l :
  Sorted R l → Forall P l → Sorted (λ a b, R a b ∧ P a ∧ P b) l.
Proof.
  induction 1 as [|x l Hl IH Hhd]; intros HP; [constructor|].
  apply Forall_cons in HP as [Hx HP].
  constructor; [by apply IH|].
  destruct Hhd as [|y l' Hxy]; constructor.
  apply Forall_cons in HP as [Hy _]. done.
Qed.

(** The keys of an object, given the names of its own properties in
    creation order. *)
Lemma keys_enumeration_order O :
  enumeration_order (keys O) (properties O).*1.
Proof.
  exists ((λ e : N * (string * value), e.2.1) <$> merge_sort index_le (indexed (properties O))).
  split; [|split].
  - unfold keys, entries. rewrite fmap_app, named_names.
    f_equal. by rewrite <- list_fmap_compose.
  - rewrite merge_sort_Permutation. by rewrite indexed_names.
  - apply (Sorted_fmap _
      (λ a b : N * (string * value),
         index_le a b ∧ array_index a.2.1 = Some a.1 ∧ array_index b.2.1 = Some b.1)).
    + intros [m [a ?]] [n [b ?]] (Hle & Ha & Hb). unfold index_before, index_le in *.
      simpl in *. by rewrite Ha, Hb.
    + apply (Sorted_with index_le (λ e, array_index e.2.1 = Some e.1)).
      * apply Sorted_merge_sort. apply _.
      * rewrite merge_sort_Permutation. apply indexed_sound.
Qed.

Lemma enumeration_order_named ks F :
  Forall (λ P, ¬ is_index P) F → enumeration_order ks F → ks = F.
Proof.
  intros HF (idx & -> & Hperm & _).
  assert (filter is_index F = []) as Hnil.
  { apply elem_of_nil_inv. intros P [HP Hin]%list_elem_of_filter.
    rewrite Forall_forall in HF. by apply (HF P). }
  rewrite Hnil in Hperm. apply Permutation_nil_r in Hperm as ->. simpl.
  induction F as [|P F IH]; [done|].
  apply Forall_cons in HF as [HP HF].
  rewrite filter_cons, decide_True by done. f_equal. apply IH; [done|].
  rewrite filter_cons in Hnil. by destruct (decide (is_index P)).
Qed.

(** ** Totals *)

Lemma finite_sum_cons v l : finite_sum (v :: l) = (finite_part v + finite_sum l)%Qc.
Proof. reflexivity. Qed.

Lemma finite_sum_app l k : finite_sum (l ++ k) = (finite_sum l + finite_sum k)%Qc.
Proof.
  unfold finite_sum. induction l as [|v l IH]; simpl.
  - by rewrite Qcplus_0_l.
  - rewrite IH. ring.
Qed.

Lemma finite_sum_Permutation l k : l ≡ₚ k → finite_sum l = finite_sum k.
Proof.
  unfold finite_sum. induction 1 as [|v l k _ IH|v w l|l k m _ IH1 _ IH2]; simpl.
  - done.
  - by rewrite IH.
  - ring.
  - by rewrite IH1.
Qed.

Lemma foldl_addition_finite vs a :
  Forall is_finite vs →
  foldl addition (VNumber (Finite a)) vs = VNumber (Finite (a + finite_sum vs)).
Proof.
  intros H. revert a. induction H as [|v vs [q ->] _ IH]; intros a; simpl.
  - by rewrite Qcplus_0_r.
  - change (addition (VNumber (Finite a)) (VNumber (Finite q)))
      with (VNumber (Finite (a + q))).
    rewrite IH. do 2 f_equal. unfold finite_sum. simpl. ring.
Qed.

Lemma split_Permutation l : (snd <$> indexed l) ++ named l ≡ₚ l.
Proof.
  unfold indexed, named. induction l as [|[k v] l IH]; [done|].
  rewrite filter_cons. simpl.
  destruct (decide (array_index k = None)) as [Hk|Hk].
  - rewrite Hk. simpl. by rewrite <- Permutation_middle, IH.
  - destruct (array_index k) as [n|]; [|done]. simpl. by rewrite IH.
Qed.

Lemma entries_Permutation O : entries O ≡ₚ properties O.
Proof.
  unfold entries. rewrite merge_sort_Permutation. apply split_Permutation.
Qed.

(** The sum of the values of an object whose own values are finite
    numbers. *)
Lemma sum_values_finite O :
  Forall is_finite (properties O).*2 →
  sum_values O = VNumber (Finite (finite_sum (properties O).*2)).
Proof.
  intros H. unfold sum_values, of_Z.
  assert (values O ≡ₚ (properties O).*2) as Hperm.
  { unfold values. by rewrite entries_Permutation. }
  rewrite foldl_addition_finite by (by rewrite Hperm).
  rewrite (finite_sum_Permutation _ _ Hperm), Z2Qc_inj_0. do 2 f_equal. ring.
Qed.

Lemma own_finite P v l :
  Forall is_finite l.*2 → own P l = Some v → is_finite v.
Proof.
  induction l as [|[k w] l IH]; simpl; [done|].
  intros [Hw Hl]%Forall_cons.
  destruct (bool_decide (k = P)); [by intros [= <-] | by apply IH].
Qed.

Lemma update_finite P q l :
  Forall is_finite l.*2 → Forall is_finite (update P (VNumber (Finite q)) l).*2.
Proof.
  induction l as [|[k w] l IH]; simpl; [done|].
  intros [Hw Hl]%Forall_cons.
  destruct (bool_decide (k = P)); simpl; apply Forall_cons; split; auto.
  by exists q.
Qed.

Lemma update_finite_sum P q old l :
  own P l = Some (VNumber (Finite old)) →
  finite_sum (update P (VNumber (Finite q)) l).*2
  = (finite_sum l.*2 - old + q)%Qc.
Proof.
  induction l as [|[k w] l IH]; [done|]. cbn [own update].
  destruct (bool_decide (k = P)).
  - intros [= ->]. rewrite !fmap_cons, !finite_sum_cons.
    generalize (finite_sum l.*2). intros s. simpl. ring.
  - intros H. rewrite !fmap_cons, !finite_sum_cons, (IH H).
    generalize (finite_sum l.*2). intros s. simpl. ring.
Qed.

(** The reduction behind [groupCount] and [groupSum], on records whose
    contribution is the finite number [qf item]. *)
Lemma group_total (kf : record → string) (qf : record → Qc) items :
  (∀ item, item ∈ items → kf item ∉ ObjectPrototype_names) →
  let O := assign_each kf
             (λ acc item,
                addition (logical_or (object_Get acc (kf item)) (VNumber (of_Z 0)))
                         (VNumber (Finite (qf item)))) items in
  prototype O = VObjectPrototype ∧
  Forall is_finite (properties O).*2 ∧
  finite_sum (properties O).*2 = finite_sum (VNumber ∘ Finite ∘ qf <$> items).
Proof.
  induction items as [|x items IH] using rev_ind; intros Hk; simpl; [by repeat split|].
  destruct IH as (Hproto & Hfin & Hsum).
  { intros item Hitem. apply Hk, elem_of_app. by left. }
  assert (kf x ∉ ObjectPrototype_names) as Hx.
  { apply Hk, elem_of_app. right. by apply list_elem_of_singleton. }
  assert (kf x ≠ "__proto__") as Hx'.
  { intros Heq. apply Hx. rewrite Heq. apply elem_of_cons. by left. }
  rewrite assign_each_snoc.
  set (O := assign_each kf _ items) in *.
  rewrite fmap_app, finite_sum_app, <- Hsum. clear Hsum.
  unfold object_Get.
  destruct (own (kf x) (properties O)) as [w|] eqn:Hown.
  - destruct (own_finite _ _ _ Hfin Hown) as [old ->].
    set (V := addition _ _).
    assert (V = VNumber (Finite (old + qf x))) as ->.
    { unfold V, logical_or, ToBoolean.
      destruct (bool_decide_reflect (old = 0%Qc)) as [->|_]; simpl; [|done].
      unfold addition, of_Z. simpl. by rewrite Z2Qc_inj_0. }
    destruct (object_Set_own O (kf x) (VNumber (Finite (old + qf x))) Hx')
      as [-> ->].
    rewrite Hown. split; [done|]. split; [by apply update_finite|].
    rewrite (update_finite_sum _ _ old) by done.
    unfold finite_sum. simpl. ring.
  - rewrite Hproto. simpl. rewrite ObjectPrototype_Get_other by done.
    set (V := addition _ _).
    assert (V = VNumber (Finite (0 + qf x))) as ->.
    { unfold V, logical_or, addition, of_Z. simpl. by rewrite Z2Qc_inj_0. }
    destruct (object_Set_own O (kf x) (VNumber (Finite (0 + qf x))) Hx')
      as [-> ->].
    rewrite Hown. split; [done|]. rewrite fmap_app. split.
    + apply Forall_app. split; [done|]. apply Forall_singleton. by eexists.
    + rewrite finite_sum_app. unfold finite_sum. simpl. ring.
Qed.

Lemma assign_each_ext kf vf vf' items :
  (∀ acc item, item ∈ items → vf acc item = vf' acc item) →
  assign_each kf vf items = assign_each kf vf' items.
Proof.
  induction items as [|x items IH] using rev_ind; intros H; [done|].
  rewrite !assign_each_snoc, IH.
  - f_equal. apply H, elem_of_app. right. by apply list_elem_of_singleton.
  - intros acc item Hitem. apply H, elem_of_app. by left.
Qed.

Lemma byProduct_groupCount services :
  byProduct services = groupCount services "ProductID".
Proof. reflexivity. Qed.

(** ** The aggregations *)

(** C2 (amended).  When no group key is [__proto__], the keys of the object
    built by [groupCount] or [groupSum] are enumerated as follows: the keys
    that are array indices first, in ascending numeric order, then the other
    keys in the order of their first appearance in the input.  When no group
    key is an array index, this is the order of first appearance.  The
    reduction of [loadServiceDashboard] is [groupCount] on [ProductID]. *)
Theorem group_enumeration items key valueKey :
  "__proto__" ∉ key_of key <$> items →
  enumeration_order (keys (groupCount items key))
                    (first_appearance (key_of key <$> items)) ∧
  enumeration_order (keys (groupSum items key valueKey))
                    (first_appearance (key_of key <$> items)) ∧
  (Forall (λ P, ¬ is_index P) (key_of key <$> items) →
   keys (groupCount items key) = first_appearance (key_of key <$> items) ∧
   keys (groupSum items key valueKey) = first_appearance (key_of key <$> items)) ∧
  byProduct items = groupCount items "ProductID".
Proof.
  intros Hproto.
  assert (∀ vf, enumeration_order (keys (assign_each (key_of key) vf items))
                  (first_appearance (key_of key <$> items))) as Henum.
  { intros vf. destruct (assign_each_names (key_of key) vf items Hproto) as [_ <-].
    apply keys_enumeration_order. }
  split; [apply Henum|]. split; [apply Henum|]. split; [|done].
  intros Hnamed.
  assert (Forall (λ P, ¬ is_index P) (first_appearance (key_of key <$> items))) as HF.
  { apply Forall_forall. intros P HP.
    apply (proj1 (first_appearance_elem _ _)) in HP.
    rewrite Forall_forall in Hnamed. exact (Hnamed P HP). }
  split; apply (enumeration_order_named _ _ HF), Henum.
Qed.

Lemma group_enumeration_witness :
  enumeration_order
    (keys (groupCount [request 7 1 2 "Open"; request 8 1 1 "Closed"] "Status"))
    (first_appearance
       (key_of "Status" <$> [request 7 1 2 "Open"; request 8 1 1 "Closed"])).
Proof.
  apply (group_enumeration [request 7 1 2 "Open"; request 8 1 1 "Closed"]
           "Status" "ServiceID").
  apply (bool_decide_unpack _). vm_compute. exact I.
Defined.

(** C2 as stated fails on numeric group keys: the product [2] appears before
    the product [1], and [1] is enumerated first. *)
Lemma group_enumeration_claim_fails :
  first_appearance
    (key_of "ProductID" <$> [request 7 1 2 "Open"; request 8 1 1 "Closed"])
  = ["2"; "1"] ∧
  keys (groupCount [request 7 1 2 "Open"; request 8 1 1 "Closed"] "ProductID")
  = ["1"; "2"] ∧
  keys (byProduct [request 7 1 2 "Open"; request 8 1 1 "Closed"]) = ["1"; "2"].
Proof. repeat split; vm_compute; reflexivity. Qed.

Lemma count_total (items : list record) :
  finite_sum (VNumber ∘ Finite ∘ (λ _, Qc_of_Z 1) <$> items)
  = Qc_of_Z (Z.of_nat (length items)).
Proof.
  induction items as [|x items IH]; [symmetry; exact Z2Qc_inj_0|].
  rewrite fmap_cons, finite_sum_cons, IH. simpl finite_part.
  rewrite <- Z2Qc_inj_add. f_equal. simpl length. lia.
Qed.

(** C6 (amended).  When no group key is the name of a property of
    [Object.prototype], the counts of [groupCount] add up to the length of
    the input. *)
Theorem groupCount_total items key :
  Forall (λ item, key_of key item ∉ ObjectPrototype_names) items →
  sum_values (groupCount items key) = VNumber (of_nat (length items)).
Proof.
  intros Hk. rewrite Forall_forall in Hk.
  destruct (group_total (key_of key) (λ _, Qc_of_Z 1) items Hk) as (_ & Hfin & Hsum).
  change (assign_each _ _ items) with (groupCount items key) in Hfin, Hsum.
  rewrite (sum_values_finite _ Hfin), Hsum, count_total. done.
Qed.

Lemma groupCount_total_witness :
  sum_values (groupCount [request 7 1 2 "Open"; request 8 1 1 "Closed";
                          request 9 2 2 "Open"] "Status")
  = VNumber (of_nat 3).
Proof.
  apply (groupCount_total [request 7 1 2 "Open"; request 8 1 1 "Closed";
                           request 9 2 2 "Open"] "Status").
  apply (bool_decide_unpack _). vm_compute. exact I.
Defined.

(** C6 as stated fails when a group key names a property of
    [Object.prototype]: the assignment to [__proto__] is dropped by the
    setter, and the count filed under [constructor] is a string. *)
Lemma groupCount_claim_fails :
  sum_values (groupCount [request 7 1 2 "__proto__"] "Status") = VNumber (of_Z 0) ∧
  sum_values (groupCount [request 7 1 2 "constructor"] "Status")
  = VString "0function Object() { [native code] }1".
Proof. split; vm_compute; reflexivity. Qed.

Lemma sum_field_finite items valueKey :
  Forall (λ item, is_finite (field item valueKey)) items →
  sum_field items valueKey
  = VNumber (Finite (finite_sum ((λ item, field item valueKey) <$> items))).
Proof.
  intros H. unfold sum_field.
  rewrite <- (foldl_fmap addition _ items (λ item, field item valueKey)).
  unfold of_Z. rewrite foldl_addition_finite by (by apply Forall_fmap).
  rewrite Z2Qc_inj_0. do 2 f_equal. ring.
Qed.

Lemma field_number (item : record) name q :
  item !! name = Some (JNumber q) → field item name = VNumber (Finite q).
Proof. intros H. unfold field, Get, inherited_Get. by rewrite H. Qed.

(** C7 (amended).  When every record holds a number in the value field and
    no group key is the name of a property of [Object.prototype], the sums
    of [groupSum] add up to the sum of the value field over the input. *)
Theorem groupSum_total items key valueKey :
  Forall (λ item, key_of key item ∉ ObjectPrototype_names) items →
  Forall (λ item : record, ∃ q, item !! valueKey = Some (JNumber q)) items →
  sum_values (groupSum items key valueKey) = sum_field items valueKey.
Proof.
  intros Hk Hv. rewrite Forall_forall in Hk.
  assert (Forall (λ item, field item valueKey
                          = VNumber (Finite (finite_part (field item valueKey))))
                 items) as Hq.
  { eapply Forall_impl; [exact Hv|]. intros item [q Hq]. simpl.
    by rewrite (field_number _ _ _ Hq). }
  pose proof (group_total (key_of key) (λ item, finite_part (field item valueKey))
                items Hk) as (_ & Hfin & Hsum).
  rewrite (assign_each_ext _ _
             (λ acc item,
                addition (logical_or (object_Get acc (key_of key item))
                                     (VNumber (of_Z 0)))
                         (field item valueKey))) in Hfin, Hsum.
  2, 3: (intros acc item Hitem; rewrite Forall_forall in Hq;
         by rewrite <- (Hq item Hitem)).
  change (assign_each _ _ items) with (groupSum items key valueKey) in Hfin, Hsum.
  rewrite (sum_values_finite _ Hfin), Hsum, sum_field_finite.
  - do 3 f_equal. apply list_fmap_ext. intros i item Hitem.
    apply list_elem_of_lookup_2 in Hitem. rewrite Forall_forall in Hq.
    simpl. by rewrite <- (Hq item Hitem).
  - eapply Forall_impl; [exact Hq|]. intros item ->. by eexists.
Qed.

Lemma groupSum_total_witness :
  sum_values (groupSum [payment 1 100 "Card"; payment 2 50 "Cash";
                        payment 3 25 "Card"] "PaymentMethod" "Amount")
  = sum_field [payment 1 100 "Card"; payment 2 50 "Cash"; payment 3 25 "Card"]
              "Amount".
Proof.
  apply (groupSum_total [payment 1 100 "Card"; payment 2 50 "Cash";
                         payment 3 25 "Card"] "PaymentMethod" "Amount").
  - apply (bool_decide_unpack _). vm_compute. exact I.
  - repeat (apply Forall_cons; split); [..|apply Forall_nil];
      eexists; vm_compute; reflexivity.
Defined.

(** C7 as stated fails on a record without the value field: the group sum
    restarts from zero after the NaN, the sum over the input does not.  It
    also fails when a group key names a property of [Object.prototype]. *)
Lemma groupSum_claim_fails :
  (ToString (sum_values (groupSum [unpaid; payment 2 5 "Card"]
                                  "PaymentMethod" "Amount")) = "5" ∧
   sum_field [unpaid; payment 2 5 "Card"] "Amount" = VNumber NaN) ∧
  (sum_values (groupSum [payment 1 100 "constructor"] "PaymentMethod" "Amount")
   = VString "0function Object() { [native code] }100" ∧
   ToString (sum_field [payment 1 100 "constructor"] "Amount") = "100").
Proof. repeat split; vm_compute; reflexivity. Qed.

(** ** The join *)

(** C3 (amended).  When the foreign key of the order is the key of no
    customer and is not the name of a property of [Object.prototype], and no
    customer is filed under [__proto__], the customer label is the
    placeholder made of [#] and the foreign key, in the order detail and in
    the row of the orders table. *)
Theorem missing_customer_placeholder formatTRY customers o :
  "__proto__" ∉ key_of "CustomerID" <$> customers →
  key_of "CustomerID" o ∉ key_of "CustomerID" <$> customers →
  key_of "CustomerID" o ∉ ObjectPrototype_names →
  customerLabel
    (object_Get (indexBy customers "CustomerID")
                (ToPropertyKey (field o "CustomerID"))) o
  = "#" +:+ ToString (field o "CustomerID") ∧
  ordersRow formatTRY (indexBy customers "CustomerID") o
  = template
      [nl; "      <tr onclick="; dq; "location.href='order.html?id=";
       ToString (field o "OrderID"); "'"; dq; ">"; nl;
       "        <td>"; ToString (field o "OrderID"); "</td>"; nl;
       "        <td>"; "#" +:+ ToString (field o "CustomerID"); "</td>"; nl;
       "        <td>#"; ToString (field o "StoreID"); "</td>"; nl;
       "        <td>"; ToString (field o "OrderDate"); "</td>"; nl;
       "        <td>"; escapeHTML (field o "Status"); "</td>"; nl;
       "        <td class="; dq; "right"; dq; ">";
       formatTRY (field o "TotalAmount"); "</td>"; nl;
       "      </tr>"; nl; "    "].
Proof.
  intros Hproto Habsent Hnames.
  pose proof (indexBy_absent customers "CustomerID" _ Hproto Habsent Hnames) as Hc.
  unfold key_of in Hc. unfold ordersRow. rewrite Hc. done.
Qed.

Lemma missing_customer_placeholder_witness :
  customerLabel
    (object_Get (indexBy [ada] "CustomerID")
       (ToPropertyKey (field (order (number_field 1) (number_field 999)) "CustomerID")))
    (order (number_field 1) (number_field 999))
  = "#999".
Proof.
  refine (proj1 (missing_customer_placeholder (λ _, "") [ada]
                   (order (number_field 1) (number_field 999)) _ _ _));
    apply (bool_decide_unpack _); vm_compute; exact I.
Defined.

(** C3 as stated fails for the foreign key ["constructor"], the key of no
    customer: the lookup answers the inherited function, which is truthy,
    and the label is built from its missing name and city. *)
Lemma missing_customer_claim_fails :
  (key_of "CustomerID" (order (number_field 1) (JString "constructor"))
     ∉ key_of "CustomerID" <$> [ada]) ∧
  customerLabel
    (object_Get (indexBy [ada] "CustomerID")
       (ToPropertyKey (field (order (number_field 1) (JString "constructor"))
                             "CustomerID")))
    (order (number_field 1) (JString "constructor"))
  = " ()".
Proof.
  split; [apply (bool_decide_unpack _); vm_compute; exact I | vm_compute; reflexivity].
Qed.

(** ** Escaping *)

Lemma string_app_cons x a b : String x a +:+ b = String x (a +:+ b).
Proof. reflexivity. Qed.

Lemma string_app_assoc a b c : (a +:+ b) +:+ c = a +:+ (b +:+ c).
Proof.
  induction a as [|x a IH]; [done|].
  rewrite !string_app_cons. by f_equal.
Qed.

Lemma replaceAll_app a b c r :
  replaceAll (a +:+ b) c r = replaceAll a c r +:+ replaceAll b c r.
Proof.
  induction a as [|x a IH]; [done|].
  rewrite string_app_cons. cbn [replaceAll].
  by rewrite IH, string_app_assoc.
Qed.

Lemma escapeHTML_cons c s :
  escapeHTML (VString (String c s)) = entity c +:+ escapeHTML (VString s).
Proof.
  unfold escapeHTML. simpl ToString. cbn [replaceAll].
  rewrite !replaceAll_app. f_equal.
  unfold entity.
  destruct (bool_decide_reflect (c = "&"%char)) as [->|?]; [by vm_compute|].
  cbn [replaceAll].
  destruct (bool_decide_reflect (c = "<"%char)) as [->|?]; [by vm_compute|].
  change (String c "" +:+ "") with (String c ""). cbn [replaceAll].
  destruct (bool_decide_reflect (c = ">"%char)) as [->|?]; [by vm_compute|].
  change (String c "" +:+ "") with (String c ""). cbn [replaceAll].
  destruct (bool_decide_reflect (c = "034"%char)) as [->|?]; [by vm_compute|].
  change (String c "" +:+ "") with (String c ""). cbn [replaceAll].
  by destruct (bool_decide_reflect (c = "'"%char)) as [->|?].
Qed.

Lemma escapeHTML_escape_each s : escapeHTML (VString s) = escape_each s.
Proof.
  induction s as [|c s IH]; [done|].
  by rewrite escapeHTML_cons, IH.
Qed.

Lemma occurs_app c a b : occurs c (a +:+ b) = occurs c a || occurs c b.
Proof.
  induction a as [|x a IH]; [done|].
  rewrite string_app_cons. cbn [occurs].
  by rewrite IH, orb_assoc.
Qed.

Lemma escape_each_no_lt s : occurs "<" (escape_each s) = false.
Proof.
  induction s as [|c s IH]; [done|]. simpl.
  rewrite occurs_app, IH, orb_false_r. unfold entity.
  destruct (bool_decide_reflect (c = "&"%char)) as [->|?]; [by vm_compute|].
  destruct (bool_decide_reflect (c = "<"%char)) as [->|?]; [by vm_compute|].
  destruct (bool_decide_reflect (c = ">"%char)) as [->|?]; [by vm_compute|].
  destruct (bool_decide_reflect (c = "034"%char)) as [->|?]; [by vm_compute|].
  destruct (bool_decide_reflect (c = "'"%char)) as [->|?]; [by vm_compute|].
  simpl. by rewrite bool_decide_eq_false_2.
Qed.

Lemma includes_occurs c needle s :
  occurs c s = false → includes (String c needle) s = false.
Proof.
  induction s as [|a s IH]; [done|]. simpl.
  intros [Ha Hs]%orb_false_elim. rewrite (IH Hs), orb_false_r.
  apply bool_decide_eq_false in Ha.
  destruct (ascii_dec c a) as [->|]; [done | reflexivity].
Qed.

(** C4.  [escapeHTML] replaces each of the five reserved characters of a
    string by its entity and keeps every other character, and its result
    never includes the text [<script>]. *)
Theorem escapeHTML_entities s :
  escapeHTML (VString s) = escape_each s ∧
  occurs "<" (escapeHTML (VString s)) = false ∧
  includes "<script>" (escapeHTML (VString s)) = false.
Proof.
  rewrite escapeHTML_escape_each. split; [done|].
  split; [apply escape_each_no_lt | apply includes_occurs, escape_each_no_lt].
Qed.

(** C9.  [escapeHTML] answers the empty string for null and for
    undefined. *)
Theorem escapeHTML_nullish :
  escapeHTML VNull = "" ∧ escapeHTML VUndefined = "".
Proof. split; reflexivity. Qed.

(** ** The guards of the page functions *)

(** The test [if (!id) return] on a converted identifier. *)
Lemma guard_iff n :
  negb (ToBoolean (VNumber n)) = true ↔ n = NaN ∨ n = of_Z 0.
Proof.
  unfold of_Z. rewrite Z2Qc_inj_0.
  destruct n as [|b|q]; simpl.
  - split; [by left | done].
  - split; [done | by intros [|]].
  - rewrite negb_involutive, bool_decide_eq_true.
    split; [intros ->; by right | by intros [|[= ->]]].
Qed.

Lemma detail_abort formatTRY pg :
  negb (ToBoolean (VNumber (ToNumber (getParam pg "id")))) = true →
  loadOrderDetail formatTRY pg = Fulfilled (document pg) ∧
  loadServiceDetail pg = Fulfilled (document pg).
Proof.
  intros H. unfold loadOrderDetail, loadServiceDetail. rewrite H.
  split; [by destruct (document pg !! "orderInfo")
         | by destruct (document pg !! "serviceInfo")].
Qed.

(** C5.  When the query has no [id], or an [id] that is not numeric, the two
    detail functions are fulfilled with the document as it was. *)
Theorem detail_without_numeric_id formatTRY pg :
  getParam pg "id" = VNull ∨
  (∃ s, getParam pg "id" = VString s ∧ StringToNumber s = NaN) →
  loadOrderDetail formatTRY pg = Fulfilled (document pg) ∧
  loadServiceDetail pg = Fulfilled (document pg).
Proof.
  intros H. apply detail_abort, guard_iff.
  destruct H as [->|(s & -> & Hs)]; [by right | by left].
Qed.

Lemma detail_without_numeric_id_witness :
  loadOrderDetail (λ _, "") (detail_page "abc")
  = Fulfilled (document (detail_page "abc")) ∧
  loadServiceDetail (detail_page "abc") = Fulfilled (document (detail_page "abc")).
Proof.
  apply (detail_without_numeric_id (λ _, "") (detail_page "abc")).
  right. exists "abc". split; vm_compute; reflexivity.
Defined.

(** C10.  The identifier ["0"] is numeric and converts to zero, which fails
    the guard: the two detail functions are fulfilled with the document as it
    was.  The guard stops exactly the identifiers that convert to zero or to
    NaN. *)
Theorem detail_with_zero_id formatTRY pg :
  getParam pg "id" = VString "0" →
  ToNumber (getParam pg "id") = of_Z 0 ∧
  loadOrderDetail formatTRY pg = Fulfilled (document pg) ∧
  loadServiceDetail pg = Fulfilled (document pg) ∧
  (∀ n, negb (ToBoolean (VNumber n)) = true ↔ n = NaN ∨ n = of_Z 0).
Proof.
  intros H.
  assert (ToNumber (getParam pg "id") = of_Z 0) as Hz by (by rewrite H).
  destruct (detail_abort formatTRY pg) as [Horder Hservice].
  { apply guard_iff. by right. }
  split; [done|]. split; [done|]. split; [done|]. apply guard_iff.
Qed.

Lemma detail_with_zero_id_witness :
  ToNumber (getParam (detail_page "0") "id") = of_Z 0 ∧
  loadOrderDetail (λ _, "") (detail_page "0")
  = Fulfilled (document (detail_page "0")) ∧
  loadServiceDetail (detail_page "0") = Fulfilled (document (detail_page "0")) ∧
  (∀ n, negb (ToBoolean (VNumber n)) = true ↔ n = NaN ∨ n = of_Z 0).
Proof.
  apply (detail_with_zero_id (λ _, "") (detail_page "0")).
  vm_compute. reflexivity.
Defined.

(** ** Numeric keys

    The text of a number is never the name of a property of
    [Object.prototype]: records filed under numeric identifiers are out of
    reach of the inherited names. *)

Lemma pretty_N_go_begins x s :
  begins_numeric s = true → begins_numeric (pretty_N_go x s) = true.
Proof.
  revert s. induction (N.lt_wf_0 x) as [x _ IH]; intros s Hs.
  assert (x = 0 ∨ 0 < x)%N as [->|Hx] by lia; [by rewrite pretty_N_go_0|].
  rewrite pretty_N_go_step by done. apply IH; [by apply N.div_lt|].
  unfold pretty_N_char. by repeat case_match.
Qed.

Lemma pretty_N_begins (x : N) : begins_numeric (pretty x) = true.
Proof.
  unfold pretty, pretty_N. destruct (decide (x = 0%N)) as [|Hx]; [done|].
  rewrite pretty_N_go_step by lia. apply pretty_N_go_begins.
  unfold pretty_N_char. by repeat case_match.
Qed.

Lemma pretty_Z_begins (z : Z) : begins_numeric (pretty z) = true.
Proof.
  destruct z as [|p|p]; [done | apply pretty_N_begins | done].
Qed.

Lemma begins_numeric_app a b :
  begins_numeric a = true → begins_numeric (a +:+ b) = true.
Proof. by destruct a. Qed.

Lemma begins_numeric_substring n s :
  begins_numeric s = true → begins_numeric (String.substring 0 (S n) s) = true.
Proof. by destruct s. Qed.

Lemma positive_toString_begins x : begins_numeric (positive_toString x) = true.
Proof.
  unfold positive_toString. destruct (significand x) as [s e].
  pose proof (pretty_Z_begins s) as Hd.
  repeat case_bool_decide.
  - by apply begins_numeric_app.
  - destruct (Z.to_nat (Z.of_nat (String.length (pretty s)) + e)) as [|n] eqn:Hn;
      [lia|]. by apply begins_numeric_app, begins_numeric_substring.
  - done.
  - by apply begins_numeric_app.
  - by apply begins_numeric_app, begins_numeric_substring.
Qed.

Lemma number_toString_begins n : begins_numeric (number_toString n) = true.
Proof.
  destruct n as [|[|]|q]; simpl; try done.
  destruct (Qnum q); [done | apply positive_toString_begins | done].
Qed.

Lemma number_key_own n : number_toString n ∉ ObjectPrototype_names.
Proof.
  intros Hin.
  assert (Forall (λ P, begins_numeric P = false) ObjectPrototype_names) as Hnames.
  { apply (bool_decide_unpack _). vm_compute. exact I. }
  rewrite Forall_forall in Hnames.
  specialize (Hnames _ Hin). by rewrite number_toString_begins in Hnames.
Qed.

Lemma number_field_key (item : record) key q :
  item !! key = Some (JNumber q) → key_of key item ∉ ObjectPrototype_names.
Proof.
  intros H. unfold key_of. rewrite (field_number _ _ _ H). apply number_key_own.
Qed.

(** A field that holds a number in every record yields keys that meet none
    of the inherited names, [__proto__] included. *)
Lemma numeric_keys_own (items : list record) key :
  Forall (λ item : record, ∃ q, item !! key = Some (JNumber q)) items →
  Forall (λ item, key_of key item ∉ ObjectPrototype_names) items ∧
  "__proto__" ∉ key_of key <$> items.
Proof.
  intros H.
  assert (Forall (λ item, key_of key item ∉ ObjectPrototype_names) items) as Hk.
  { eapply Forall_impl; [exact H|]. intros item [q Hq]. by eapply number_field_key. }
  split; [done|].
  intros (item & Heq & Hin)%list_elem_of_fmap.
  rewrite Forall_forall in Hk. apply (Hk item Hin).
  rewrite <- Heq. apply elem_of_cons. by left.
Qed.

(** ** Missing containers *)

(** C8.  A page function whose first container is missing is fulfilled with
    the document as it was, whatever the resources; and [setText] and
    [setHTML] leave the document as it was when the element is missing. *)
Theorem missing_container formatTRY pg :
  (∀ v, document pg !! marker v = None →
        render formatTRY v pg = Fulfilled (document pg)) ∧
  (∀ id value, document pg !! id = None →
               setText id value (document pg) = document pg ∧
               setHTML id value (document pg) = document pg).
Proof.
  split.
  - intros v H. destruct v; simpl in *;
      [unfold initDashboard | unfold loadOrdersTable | unfold loadOrderDetail
      | unfold loadServiceDashboard | unfold loadServiceRequestsTable
      | unfold loadServiceDetail]; by rewrite H.
  - intros id value H. unfold setText, setHTML. by rewrite H.
Qed.

Lemma missing_container_witness :
  render (λ _, "") Dashboard other_page = Fulfilled (document other_page) ∧
  setText "totalOrders" (VNumber (of_Z 3)) (document other_page)
  = document other_page.
Proof.
  split.
  - apply (proj1 (missing_container (λ _, "") other_page) Dashboard).
    vm_compute. reflexivity.
  - apply (proj2 (missing_container (λ _, "") other_page) "totalOrders").
    vm_compute. reflexivity.
Defined.

(** ** Examples *)

(** Identifiers that [Number] takes for numbers, and identifiers it does
    not. *)
Example numeric_ids :
  ToString ∘ VNumber ∘ StringToNumber <$>
    ["7"; " 7 "; "007"; "7.50"; "-7"; "1e3"; "0x1F"; "0"; ""; "Infinity"]
  = ["7"; "7"; "7"; "7.5"; "-7"; "1000"; "31"; "0"; "0"; "Infinity"].
Proof. vm_compute. reflexivity. Qed.

Example non_numeric_ids :
  Forall (λ s, StringToNumber s = NaN)
         ["abc"; "12px"; "1,5"; "1 2"; "--1"; "0x"; "1e"; "."; "#7"; "null"].
Proof. repeat constructor. Qed.

(** With a numeric identifier the order detail is rendered: the payment is
    shown, the delivery is the placeholder, and the customer [5], who is not
    in the customer set, is the placeholder [#5]. *)
Example order_detail_renders formatTRY :
  let doc := outcome_document (loadOrderDetail formatTRY order_page) in
  doc !! "paymentInfo"
  = Some (innerHTML ("<h3>Payment</h3><p>Card — "
                     +:+ formatTRY (VNumber (of_Z 100)) +:+ "</p>")) ∧
  doc !! "deliveryInfo"
  = Some (innerHTML ("<h3>Delivery</h3><p class=" +:+ dq +:+ "muted" +:+ dq
                     +:+ ">No delivery record</p>")) ∧
  doc !! "orderInfo"
  = Some (innerHTML
            (template [nl; "    <h3>Order #1</h3>"; nl;
                       "    <p>Status: <strong>Delivered</strong></p>"; nl;
                       "    <p>Customer: #5</p>"; nl;
                       "    <p>Total: <strong>";
                       formatTRY (VNumber (of_Z 100)); "</strong></p>"; nl;
                       "  "])).
Proof. repeat split; vm_compute; reflexivity. Qed.


(** ** What the reductions file under each key *)

Lemma filed_under_snoc key P items x :
  filed_under key P (items ++ [x]) =
  filed_under key P items ++ (if decide (key_of key x = P) then [x] else []).
Proof.
  unfold filed_under. rewrite filter_app, filter_cons, filter_nil. done.
Qed.

Lemma filed_under_nil key P items :
  filed_under key P items = [] ↔ P ∉ key_of key <$> items.
Proof.
  unfold filed_under. split.
  - intros H (item & -> & Hin)%list_elem_of_fmap.
    by apply (filter_nil_not_elem_of _ _ item H).
  - intros H. apply elem_of_nil_inv. intros item [Hk Hin]%list_elem_of_filter.
    apply H. rewrite <- Hk. by apply list_elem_of_fmap_2.
Qed.

(** The own property that a reduction without [__proto__] keys leaves under
    a name, when the value assigned does not depend on the accumulator: the
    value of the last item filed under the name. *)
Lemma assign_each_last kf (vf : record → value) items P :
  "__proto__" ∉ kf <$> items →
  own P (properties (assign_each kf (λ _, vf) items))
  = vf <$> last (filter (λ item, kf item = P) items).
Proof.
  induction items as [|x items IH] using rev_ind; [done|].
  rewrite fmap_app, not_elem_of_app. simpl.
  rewrite list_elem_of_singleton. intros [Hitems Hx].
  rewrite assign_each_snoc.
  set (O := assign_each kf (λ _, vf) items) in *.
  destruct (object_Set_own O (kf x) (vf x)) as [_ ->]; [done|].
  rewrite filter_app, filter_cons, filter_nil.
  specialize (IH Hitems).
  destruct (decide (kf x = P)) as [<-|Hne].
  - rewrite last_snoc. simpl.
    destruct (own (kf x) (properties O)) as [w|] eqn:Hown.
    + rewrite own_update, bool_decide_eq_true_2, Hown by done. done.
    + rewrite own_snoc, Hown, bool_decide_eq_true_2 by done. done.
  - rewrite app_nil_r, <- IH.
    destruct (own (kf x) (properties O)) as [w|] eqn:Hown.
    + by rewrite own_update, bool_decide_eq_false_2.
    + rewrite own_snoc. destruct (own P (properties O)); [done|].
      by rewrite bool_decide_eq_false_2.
Qed.

(** X1.  On duplicate keys the last record wins: when no record is filed
    under [__proto__], looking a key up in the index answers the last record
    of the sequence filed under it, and what [Object.prototype] answers when
    there is none. *)
Theorem indexBy_last_wins items key P :
  "__proto__" ∉ key_of key <$> items →
  object_Get (indexBy items key) P =
  match last (filed_under key P items) with
  | Some item => VRecord item
  | None => ObjectPrototype_Get VObjectPrototype P
  end.
Proof.
  intros Hproto. unfold object_Get. rewrite indexBy_assign_each.
  rewrite (assign_each_last (key_of key) (λ item, VRecord item) items P Hproto).
  destruct (assign_each_names (key_of key) (λ _ item, VRecord item) items Hproto)
    as [-> _].
  unfold filed_under. by destruct (last _).
Qed.

Lemma indexBy_last_wins_witness :
  object_Get (indexBy [ada; bora] "CustomerID") "1" = VRecord bora.
Proof.
  apply (indexBy_last_wins [ada; bora] "CustomerID" "1").
  apply (bool_decide_unpack _). vm_compute. exact I.
Defined.


(** The own property that the reduction behind [groupCount] and [groupSum]
    leaves under a name: the total of the contributions of the items filed
    under it. *)
Lemma group_own (kf : record → string) (qf : record → Qc) items P :
  (∀ item, item ∈ items → kf item ∉ ObjectPrototype_names) →
  own P (properties
           (assign_each kf
              (λ acc item,
                 addition (logical_or (object_Get acc (kf item)) (VNumber (of_Z 0)))
                          (VNumber (Finite (qf item)))) items))
  = match filter (λ item, kf item = P) items with
    | [] => None
    | l => Some (VNumber (Finite (finite_sum (VNumber ∘ Finite ∘ qf <$> l))))
    end.
Proof.
  revert P. induction items as [|x items IH] using rev_ind; intros P Hk; [done|].
  assert (∀ item, item ∈ items → kf item ∉ ObjectPrototype_names) as Hk'.
  { intros item Hitem. apply Hk, elem_of_app. by left. }
  assert (kf x ∉ ObjectPrototype_names) as Hx.
  { apply Hk, elem_of_app. right. by apply list_elem_of_singleton. }
  assert (kf x ≠ "__proto__") as Hx'.
  { intros Heq. apply Hx. rewrite Heq. apply elem_of_cons. by left. }
  destruct (group_total kf qf items Hk') as (Hproto & _ & _).
  rewrite assign_each_snoc.
  set (O := assign_each kf _ items) in *.
  set (V := addition _ _).
  assert (V = VNumber (Finite (finite_sum
                (VNumber ∘ Finite ∘ qf <$> filter (λ item, kf item = kf x) items)
              + qf x))) as HV.
  { unfold V, object_Get. rewrite (IH (kf x) Hk').
    destruct (filter (λ item, kf item = kf x) items) as [|y l] eqn:Hf.
    - rewrite Hproto. simpl. rewrite ObjectPrototype_Get_other by done.
      unfold logical_or, addition, of_Z. simpl. by rewrite Z2Qc_inj_0.
    - set (s := finite_sum _).
      unfold logical_or, ToBoolean.
      destruct (bool_decide_reflect (s = 0%Qc)) as [->|_]; simpl; [|done].
      unfold addition, of_Z. simpl. by rewrite Z2Qc_inj_0. }
  destruct (object_Set_own O (kf x) V Hx') as [_ ->].
  rewrite filter_app, filter_cons, filter_nil.
  assert (own P (match own (kf x) (properties O) with
                 | Some _ => update (kf x) V (properties O)
                 | None => properties O ++ [(kf x, V)]
                 end)
          = if decide (kf x = P) then Some V else own P (properties O)) as ->.
  { destruct (own (kf x) (properties O)) as [w|] eqn:Hown.
    - rewrite own_update. destruct (decide (kf x = P)) as [<-|Hne].
      + by rewrite bool_decide_eq_true_2, Hown.
      + by rewrite bool_decide_eq_false_2.
    - rewrite own_snoc. destruct (decide (kf x = P)) as [<-|Hne].
      + by rewrite Hown, bool_decide_eq_true_2.
      + destruct (own P (properties O)); [done|].
        by rewrite bool_decide_eq_false_2. }
  destruct (decide (kf x = P)) as [<-|Hne].
  - rewrite HV.
    destruct (filter (λ item, kf item = kf x) items ++ [x]) as [|y l] eqn:Hf.
    { by destruct (filter (λ item, kf item = kf x) items). }
    rewrite <- Hf, fmap_app, finite_sum_app.
    change (finite_sum (VNumber ∘ Finite ∘ qf <$> [x])) with (qf x + 0)%Qc.
    do 3 f_equal. ring.
  - rewrite app_nil_r. by apply IH.
Qed.


(** X2.  When no group key is the name of a property of [Object.prototype],
    the count that [groupCount] files under a key is the number of records
    filed under that key; a key of no record answers what [Object.prototype]
    answers. *)
Theorem groupCount_counts items key P :
  Forall (λ item, key_of key item ∉ ObjectPrototype_names) items →
  object_Get (groupCount items key) P =
  match filed_under key P items with
  | [] => ObjectPrototype_Get VObjectPrototype P
  | l => VNumber (of_nat (length l))
  end.
Proof.
  intros Hk. rewrite Forall_forall in Hk.
  destruct (group_total (key_of key) (λ _, Qc_of_Z 1) items Hk) as (Hproto & _ & _).
  pose proof (group_own (key_of key) (λ _, Qc_of_Z 1) items P Hk) as Hown.
  change (assign_each _ _ items) with (groupCount items key) in Hproto, Hown.
  unfold object_Get, filed_under. rewrite Hown, Hproto.
  destruct (filter _ items) as [|y l]; [done|].
  by rewrite count_total.
Qed.

Lemma groupCount_counts_witness :
  object_Get (groupCount [request 7 1 2 "Open"; request 8 1 1 "Closed";
                          request 9 2 2 "Open"] "Status") "Open"
  = VNumber (of_nat 2).
Proof.
  apply (groupCount_counts [request 7 1 2 "Open"; request 8 1 1 "Closed";
                            request 9 2 2 "Open"] "Status" "Open").
  apply (bool_decide_unpack _). vm_compute. exact I.
Defined.

(** X3.  When every record holds a number in the value field and no group
    key is the name of a property of [Object.prototype], the sum that
    [groupSum] files under a key is the sum of the value field over the
    records filed under that key. *)
Theorem groupSum_sums items key valueKey P :
  Forall (λ item, key_of key item ∉ ObjectPrototype_names) items →
  Forall (λ item : record, ∃ q, item !! valueKey = Some (JNumber q)) items →
  object_Get (groupSum items key valueKey) P =
  match filed_under key P items with
  | [] => ObjectPrototype_Get VObjectPrototype P
  | l => sum_field l valueKey
  end.
Proof.
  intros Hk Hv. rewrite Forall_forall in Hk.
  assert (Forall (λ item, field item valueKey
                          = VNumber (Finite (finite_part (field item valueKey))))
                 items) as Hq.
  { eapply Forall_impl; [exact Hv|]. intros item [q Hq]. simpl.
    by rewrite (field_number _ _ _ Hq). }
  pose proof (group_total (key_of key) (λ item, finite_part (field item valueKey))
                items Hk) as (Hproto & _ & _).
  pose proof (group_own (key_of key) (λ item, finite_part (field item valueKey))
                items P Hk) as Hown.
  rewrite (assign_each_ext _ _
             (λ acc item,
                addition (logical_or (object_Get acc (key_of key item))
                                     (VNumber (of_Z 0)))
                         (field item valueKey))) in Hproto, Hown.
  2, 3: (intros acc item Hitem; rewrite Forall_forall in Hq;
         by rewrite <- (Hq item Hitem)).
  change (assign_each _ _ items) with (groupSum items key valueKey) in Hproto, Hown.
  unfold object_Get, filed_under. rewrite Hown, Hproto.
  assert (Forall (λ item, field item valueKey
                          = VNumber (Finite (finite_part (field item valueKey))))
                 (filter (λ item, key_of key item = P) items)) as Hq'.
  { apply Forall_forall. intros item [_ Hin]%list_elem_of_filter.
    rewrite Forall_forall in Hq. by apply Hq. }
  destruct (filter _ items) as [|y l]; [done|].
  rewrite sum_field_finite.
  - do 3 f_equal. apply list_fmap_ext. intros i item Hitem.
    apply list_elem_of_lookup_2 in Hitem. rewrite Forall_forall in Hq'.
    simpl. by rewrite <- (Hq' item Hitem).
  - eapply Forall_impl; [exact Hq'|]. intros item ->. by eexists.
Qed.

Lemma groupSum_sums_witness :
  object_Get (groupSum [payment 1 100 "Card"; payment 2 50 "Cash";
                        payment 3 25 "Card"] "PaymentMethod" "Amount") "Card"
  = sum_field [payment 1 100 "Card"; payment 3 25 "Card"] "Amount".
Proof.
  apply (groupSum_sums [payment 1 100 "Card"; payment 2 50 "Cash";
                        payment 3 25 "Card"] "PaymentMethod" "Amount" "Card").
  - apply (bool_decide_unpack _). vm_compute. exact I.
  - repeat (apply Forall_cons; split); [..|apply Forall_nil];
      eexists; vm_compute; reflexivity.
Defined.


(** ** More on escaping *)

Lemma escapeHTML_value v :
  escapeHTML v = escape_each (ToString (coalesce v (VString ""))).
Proof. apply (escapeHTML_escape_each (ToString (coalesce v (VString "")))). Qed.

Lemma escape_each_app a b : escape_each (a +:+ b) = escape_each a +:+ escape_each b.
Proof.
  induction a as [|c a IH]; [done|].
  rewrite string_app_cons. cbn [escape_each]. by rewrite IH, string_app_assoc.
Qed.

(** X4.  Escaping distributes over concatenation: a text may be escaped
    whole or piece by piece. *)
Theorem escapeHTML_app a b :
  escapeHTML (VString (a +:+ b)) = escapeHTML (VString a) +:+ escapeHTML (VString b).
Proof. rewrite !escapeHTML_escape_each. apply escape_each_app. Qed.

Lemma entity_cases c :
  (reserved c = false ∧ entity c = String c "") ∨
  (reserved c = true ∧
   (c, entity c) ∈ [("&"%char, "&amp;"); ("<"%char, "&lt;"); (">"%char, "&gt;");
                    ("034"%char, "&quot;"); ("'"%char, "&#039;")]).
Proof.
  unfold entity.
  destruct (bool_decide_reflect (c = "&"%char)) as [->|?];
    [right; split; [done | apply (bool_decide_unpack _); by vm_compute]|].
  destruct (bool_decide_reflect (c = "<"%char)) as [->|?];
    [right; split; [done | apply (bool_decide_unpack _); by vm_compute]|].
  destruct (bool_decide_reflect (c = ">"%char)) as [->|?];
    [right; split; [done | apply (bool_decide_unpack _); by vm_compute]|].
  destruct (bool_decide_reflect (c = "034"%char)) as [->|?];
    [right; split; [done | apply (bool_decide_unpack _); by vm_compute]|].
  destruct (bool_decide_reflect (c = "'"%char)) as [->|?];
    [right; split; [done | apply (bool_decide_unpack _); by vm_compute]|].
  left. split; [|done]. unfold reserved. apply bool_decide_eq_false.
  intros Hin. repeat (apply elem_of_cons in Hin as [?|Hin]; [done|]).
  by apply elem_of_nil in Hin.
Qed.

(** Case analysis on a character: plain, or one of the five reserved. *)
Ltac entity_cases c :=
  let H := fresh "Hentity" in
  let Hr := fresh "Hreserved" in
  destruct (entity_cases c) as [[Hr H]|[Hr H]];
  [ rewrite H
  | repeat (apply elem_of_cons in H as [H|H]; [injection H as -> ->|]);
    [..|by apply elem_of_nil in H] ].

Lemma unescape_plain c s :
  c ≠ "&"%char → unescape (String c s) = String c (unescape s).
Proof.
  intros Hc. destruct c as [[] [] [] [] [] [] [] []]; try reflexivity.
  congruence.
Qed.

Lemma unescape_escape_each s : unescape (escape_each s) = s.
Proof.
  induction s as [|c s IH]; [done|]. cbn [escape_each].
  entity_cases c;
    rewrite !string_app_cons; change ("" +:+ escape_each s) with (escape_each s).
  - rewrite unescape_plain by (by intros ->). by rewrite IH.
  - cbn [unescape]. by rewrite IH.
  - cbn [unescape]. by rewrite IH.
  - cbn [unescape]. by rewrite IH.
  - cbn [unescape]. by rewrite IH.
  - cbn [unescape]. by rewrite IH.
Qed.

(** X5.  Escaping loses nothing: reading the entities back gives the text,
    so two texts with the same escaped form are the same text. *)
Theorem escapeHTML_injective s t :
  unescape (escapeHTML (VString s)) = s ∧
  (escapeHTML (VString s) = escapeHTML (VString t) → s = t).
Proof.
  rewrite !escapeHTML_escape_each. split; [apply unescape_escape_each|].
  intros H. by rewrite <- (unescape_escape_each s), H, unescape_escape_each.
Qed.


Lemma string_length_app a b :
  String.length (a +:+ b) = String.length a + String.length b.
Proof.
  induction a as [|c a IH]; [done|].
  rewrite string_app_cons. simpl. by rewrite IH.
Qed.

Lemma escape_each_length s :
  (String.length s ≤ String.length (escape_each s))%nat.
Proof.
  induction s as [|c s IH]; [done|]. cbn [escape_each].
  rewrite string_length_app. entity_cases c; simpl; lia.
Qed.

Lemma plain_app a b : plain (a +:+ b) = plain a && plain b.
Proof.
  induction a as [|c a IH]; [done|].
  rewrite string_app_cons. cbn [plain]. by rewrite IH, andb_assoc.
Qed.

Lemma plain_escape_each s : plain (escape_each s) = plain s.
Proof.
  induction s as [|c s IH]; [done|]. cbn [escape_each plain].
  rewrite plain_app, IH. f_equal.
  entity_cases c; [|done..]. cbn [plain]. by rewrite andb_true_r.
Qed.

Lemma escape_each_plain s : plain s = true ↔ escape_each s = s.
Proof.
  induction s as [|c s IH]; [done|]. cbn [escape_each plain].
  rewrite andb_true_iff, negb_true_iff, IH.
  pose proof (escape_each_length s) as Hlen.
  entity_cases c.
  - rewrite string_app_cons. change ("" +:+ escape_each s) with (escape_each s).
    split; [by intros [_ ->] | by intros [= ->]].
  - split; [by intros [[=] _]|]. intros H%(f_equal String.length).
    rewrite string_length_app in H. simpl in H. lia.
  - split; [by intros [[=] _]|]. intros H%(f_equal String.length).
    rewrite string_length_app in H. simpl in H. lia.
  - split; [by intros [[=] _]|]. intros H%(f_equal String.length).
    rewrite string_length_app in H. simpl in H. lia.
  - split; [by intros [[=] _]|]. intros H%(f_equal String.length).
    rewrite string_length_app in H. simpl in H. lia.
  - split; [by intros [[=] _]|]. intros H%(f_equal String.length).
    rewrite string_length_app in H. simpl in H. lia.
Qed.

(** X6.  Escaping leaves a text as it is exactly when the text holds none of
    the five reserved characters; and escaping twice is escaping once only
    for those texts: any other text is escaped again, ampersand by
    ampersand. *)
Theorem escapeHTML_fixed s :
  (escapeHTML (VString s) = s ↔ plain s = true) ∧
  (escapeHTML (VString (escapeHTML (VString s))) = escapeHTML (VString s)
   ↔ plain s = true).
Proof.
  rewrite !escapeHTML_escape_each. split.
  - symmetry. apply escape_each_plain.
  - by rewrite <- escape_each_plain, plain_escape_each.
Qed.

Lemma occurs_entity c x :
  reserved c = true → c ≠ "&"%char → occurs c (entity x) = false.
Proof.
  intros Hc Hamp.
  entity_cases x.
  - simpl. rewrite orb_false_r. apply bool_decide_eq_false. by intros ->; congruence.
  - clear Hreserved.
    unfold reserved in Hc. apply bool_decide_eq_true in Hc.
    repeat (apply elem_of_cons in Hc as [->|Hc]; [done|]). by apply elem_of_nil in Hc.
  - unfold reserved in Hc. apply bool_decide_eq_true in Hc.
    repeat (apply elem_of_cons in Hc as [->|Hc]; [done|]). by apply elem_of_nil in Hc.
  - unfold reserved in Hc. apply bool_decide_eq_true in Hc.
    repeat (apply elem_of_cons in Hc as [->|Hc]; [done|]). by apply elem_of_nil in Hc.
  - unfold reserved in Hc. apply bool_decide_eq_true in Hc.
    repeat (apply elem_of_cons in Hc as [->|Hc]; [done|]). by apply elem_of_nil in Hc.
  - unfold reserved in Hc. apply bool_decide_eq_true in Hc.
    repeat (apply elem_of_cons in Hc as [->|Hc]; [done|]). by apply elem_of_nil in Hc.
Qed.

Lemma occurs_escape_each c s :
  reserved c = true → c ≠ "&"%char → occurs c (escape_each s) = false.
Proof.
  intros Hc Hamp. induction s as [|x s IH]; [done|]. cbn [escape_each].
  by rewrite occurs_app, IH, occurs_entity.
Qed.

Lemma entities_only_plain c s :
  c ≠ "&"%char → entities_only (String c s) = entities_only s.
Proof. intros Hc. cbn [entities_only]. by rewrite bool_decide_eq_false_2. Qed.

Lemma entities_only_escape_each s : entities_only (escape_each s) = true.
Proof.
  induction s as [|c s IH]; [done|]. cbn [escape_each].
  entity_cases c;
    rewrite !string_app_cons; change ("" +:+ escape_each s) with (escape_each s).
  - rewrite entities_only_plain by (by intros ->). done.
  - cbn [entities_only]. rewrite IH. by destruct (escape_each s).
  - cbn [entities_only]. rewrite IH. by destruct (escape_each s).
  - cbn [entities_only]. rewrite IH. by destruct (escape_each s).
  - cbn [entities_only]. rewrite IH. by destruct (escape_each s).
  - cbn [entities_only]. rewrite IH. by destruct (escape_each s).
Qed.

(** X7.  For every value that [String] converts (every value but a record
    with a field named [toString], at which [escapeHTML] throws),
    [escapeHTML] answers a text without [<], [>], double quote or single
    quote, in which every ampersand begins one of the five entities. *)
Theorem escapeHTML_markup_free v :
  converts v →
  occurs "<" (escapeHTML v) = false ∧
  occurs ">" (escapeHTML v) = false ∧
  occurs "034" (escapeHTML v) = false ∧
  occurs "'" (escapeHTML v) = false ∧
  entities_only (escapeHTML v) = true.
Proof.
  intros _. rewrite escapeHTML_value.
  repeat split; try (by apply occurs_escape_each).
  apply entities_only_escape_each.
Qed.

Lemma escapeHTML_markup_free_witness :
  occurs "<" (escapeHTML (VRecord ada)) = false ∧
  occurs ">" (escapeHTML (VRecord ada)) = false ∧
  occurs "034" (escapeHTML (VRecord ada)) = false ∧
  occurs "'" (escapeHTML (VRecord ada)) = false ∧
  entities_only (escapeHTML (VRecord ada)) = true.
Proof.
  apply (escapeHTML_markup_free (VRecord ada)).
  vm_compute. reflexivity.
Defined.


(** ** More on the join *)

Lemma field_own (r : record) name j :
  r !! name = Some j → field r name = of_json j.
Proof. intros H. unfold field, Get, inherited_Get. by rewrite H. Qed.

Lemma field_missing (r : record) name :
  r !! name = None → name ∉ ObjectPrototype_names → field r name = VUndefined.
Proof.
  intros H Hn. unfold field, Get, inherited_Get. rewrite H.
  by apply ObjectPrototype_Get_other.
Qed.

Lemma occurs_template_label c a b :
  reserved c = true → c ≠ "&"%char → c ≠ " "%char → c ≠ "("%char → c ≠ ")"%char →
  occurs c (template [escapeHTML a; " ("; escapeHTML b; ")"]) = false.
Proof.
  intros Hc Hamp H1 H2 H3. unfold template. cbn [String.concat].
  change ("" +:+ ?x) with x.
  rewrite !occurs_app, !escapeHTML_value, !occurs_escape_each by done.
  simpl. by rewrite !bool_decide_eq_false_2 by done.
Qed.

(** X8.  When no customer is filed under [__proto__] and [c] is the last
    customer filed under the foreign key of the record, the label is the
    escaped name of [c], a space and its escaped city in parentheses; the
    label holds none of [<], [>], double quote and single quote. *)
Theorem found_customer_label customers c o :
  "__proto__" ∉ key_of "CustomerID" <$> customers →
  last (filed_under "CustomerID" (key_of "CustomerID" o) customers) = Some c →
  let label :=
    customerLabel
      (object_Get (indexBy customers "CustomerID")
                  (ToPropertyKey (field o "CustomerID"))) o in
  label = escapeHTML (field c "CustomerName") +:+ " ("
          +:+ escapeHTML (field c "City") +:+ ")" ∧
  occurs "<" label = false ∧ occurs ">" label = false ∧
  occurs "034" label = false ∧ occurs "'" label = false.
Proof.
  intros Hproto Hlast label.
  assert (object_Get (indexBy customers "CustomerID")
                     (ToPropertyKey (field o "CustomerID")) = VRecord c) as Hc.
  { unfold object_Get. rewrite indexBy_assign_each.
    rewrite (assign_each_last (key_of "CustomerID") (λ item, VRecord item)
               customers _ Hproto).
    unfold filed_under in Hlast.
    change (key_of "CustomerID" o) with (ToPropertyKey (field o "CustomerID")) in Hlast.
    by rewrite Hlast. }
  unfold label. rewrite Hc. unfold customerLabel. cbn [ToBoolean].
  change (Get (VRecord c) ?n) with (field c n).
  split; [done|]. repeat split; by apply occurs_template_label.
Qed.

Lemma found_customer_label_witness :
  customerLabel
    (object_Get (indexBy [ada] "CustomerID")
       (ToPropertyKey (field (order (number_field 1) (number_field 1)) "CustomerID")))
    (order (number_field 1) (number_field 1))
  = escapeHTML (field ada "CustomerName") +:+ " ("
    +:+ escapeHTML (field ada "City") +:+ ")".
Proof.
  refine (proj1 (found_customer_label [ada] ada
                   (order (number_field 1) (number_field 1)) _ _)).
  - apply (bool_decide_unpack _). vm_compute. exact I.
  - vm_compute. reflexivity.
Defined.

(** X9.  The service dashboard looks a product up under [Number(pid)]: a
    product key that is not numeric is looked up under [NaN] and, unless a
    product is filed there, the line is the placeholder even when the
    product is in the product set. *)
Theorem productLine_not_numeric products pid count :
  StringToNumber pid = NaN →
  "__proto__" ∉ key_of "ProductID" <$> products →
  "NaN" ∉ key_of "ProductID" <$> products →
  productLine (indexBy products "ProductID") (pid, count)
  = template ["<li>"; "Product #" +:+ pid; ": <strong>"; ToString count;
              "</strong> request(s)</li>"].
Proof.
  intros Hnan Hproto Habsent. unfold productLine.
  unfold ToNumber. cbn [ToPrimitive]. rewrite Hnan.
  change (ToPropertyKey (VNumber NaN)) with "NaN".
  rewrite (indexBy_absent products "ProductID" "NaN" Hproto Habsent).
  - done.
  - apply (number_key_own NaN).
Qed.

Lemma productLine_not_numeric_witness :
  productLine (indexBy [product (JString "P-7") "Arcelik" "X1"] "ProductID")
              ("P-7", VNumber (of_Z 2))
  = template ["<li>"; "Product #P-7"; ": <strong>"; "2";
              "</strong> request(s)</li>"].
Proof.
  apply (productLine_not_numeric [product (JString "P-7") "Arcelik" "X1"]
           "P-7" (VNumber (of_Z 2))).
  - vm_compute. reflexivity.
  - apply (bool_decide_unpack _). vm_compute. exact I.
  - apply (bool_decide_unpack _). vm_compute. exact I.
Defined.


(** ** Rejection and frame of the page functions *)

Ltac load_all pg :=
  repeat match goal with
         | |- context [loadJSON pg ?path] =>
             let H := fresh "Hload" in destruct (loadJSON pg path) eqn:H
         end.

(** X10.  A page function is rejected exactly when its first container is
    there, its test on the query passes, and one of the resources it loads
    is missing; and then the document is as it was: nothing is rendered in
    part. *)
Theorem rejected_iff formatTRY v pg :
  (is_rejected (render formatTRY v pg) = true ↔
   is_Some (document pg !! marker v) ∧ passes v pg = true ∧
   Exists (λ path, loadJSON pg path = None) (needs v)) ∧
  (is_rejected (render formatTRY v pg) = true →
   render formatTRY v pg = Rejected (document pg)).
Proof.
  destruct v; cbn [render marker needs passes];
    [unfold initDashboard | unfold loadOrdersTable | unfold loadOrderDetail
    | unfold loadServiceDashboard | unfold loadServiceRequestsTable
    | unfold loadServiceDetail].
  all: destruct (document pg !! _) as [c|] eqn:Hm; cbn [is_rejected];
    [|split; [split; [intros [=] | by intros [[? [=]] _]] | intros [=]]].
  all: try (destruct (ToBoolean _) eqn:Hid; cbn [negb is_rejected];
            [|split; [split; [intros [=] | by intros (_ & [=] & _)] | intros [=]]]).
  all: load_all pg; cbn [is_rejected].
  all: try (split; [|done]; split; [intros _ | done];
            split; [by eexists|]; split; [done|];
            rewrite !Exists_cons; tauto).
  all: try destruct (find _ _ _); cbn [is_rejected].
  all: split; [|intros [=]]; split; [intros [=]|]; intros (_ & _ & Hex);
    rewrite !Exists_cons, Exists_nil in Hex;
    repeat (destruct Hex as [Hex|Hex]; [congruence|]); destruct Hex.
Qed.


Lemma setText_other id id' v (doc : gmap string content) :
  id ≠ id' → setText id' v doc !! id = doc !! id.
Proof.
  intros H. unfold setText. destruct (doc !! id'); [|done].
  by rewrite lookup_insert_ne.
Qed.

Lemma setHTML_other id id' v (doc : gmap string content) :
  id ≠ id' → setHTML id' v doc !! id = doc !! id.
Proof.
  intros H. unfold setHTML. destruct (doc !! id'); [|done].
  by rewrite lookup_insert_ne.
Qed.

Lemma guarded_other id id' c (o : option content) (doc : gmap string content) :
  id ≠ id' →
  match o with Some _ => <[id' := c]> doc | None => doc end !! id = doc !! id.
Proof. intros H. destruct o; [|done]. by rewrite lookup_insert_ne. Qed.

Lemma present_is_Some id id' c c' (doc : gmap string content) :
  doc !! id' = Some c' →
  is_Some (<[id' := c]> doc !! id) ↔ is_Some (doc !! id).
Proof.
  intros H. destruct (decide (id' = id)) as [->|Hne].
  - rewrite lookup_insert_eq, H. split; intros _; by eexists.
  - by rewrite lookup_insert_ne.
Qed.

Lemma guarded_is_Some id id' c (doc : gmap string content) :
  is_Some (match doc !! id' with Some _ => <[id' := c]> doc | None => doc end !! id)
  ↔ is_Some (doc !! id).
Proof.
  destruct (doc !! id') eqn:H; [|done]. by eapply present_is_Some.
Qed.

Lemma setText_is_Some id id' v (doc : gmap string content) :
  is_Some (setText id' v doc !! id) ↔ is_Some (doc !! id).
Proof. apply guarded_is_Some. Qed.

Lemma setHTML_is_Some id id' v (doc : gmap string content) :
  is_Some (setHTML id' v doc !! id) ↔ is_Some (doc !! id).
Proof. apply guarded_is_Some. Qed.

Ltac outside :=
  repeat first
    [ rewrite setText_other by done
    | rewrite setHTML_other by done
    | rewrite guarded_other by done
    | rewrite lookup_insert_ne by done ];
  try done.

Ltac inside Hm :=
  repeat first
    [ rewrite setText_is_Some
    | rewrite setHTML_is_Some
    | rewrite guarded_is_Some
    | rewrite (present_is_Some _ _ _ _ _ Hm) ];
  try done.

Lemma render_outside formatTRY v pg id :
  id ∉ targets v →
  outcome_document (render formatTRY v pg) !! id = document pg !! id.
Proof.
  intros H. destruct v; cbn [render targets] in *;
    repeat (apply not_elem_of_cons in H as [? H]);
    [unfold initDashboard | unfold loadOrdersTable | unfold loadOrderDetail
    | unfold loadServiceDashboard | unfold loadServiceRequestsTable
    | unfold loadServiceDetail].
  all: destruct (document pg !! _) as [c|] eqn:Hm; [|done].
  all: try (destruct (negb _); [done|]).
  all: load_all pg; try done.
  all: try (destruct (find _ _ _); [|done]).
  all: cbn [outcome_document]; outside.
Qed.

Lemma render_present formatTRY v pg id :
  is_Some (outcome_document (render formatTRY v pg) !! id)
  ↔ is_Some (document pg !! id).
Proof.
  destruct v; cbn [render];
    [unfold initDashboard | unfold loadOrdersTable | unfold loadOrderDetail
    | unfold loadServiceDashboard | unfold loadServiceRequestsTable
    | unfold loadServiceDetail].
  all: destruct (document pg !! _) as [c|] eqn:Hm; [|done].
  all: try (destruct (negb _); [done|]).
  all: load_all pg; try done.
  all: try (destruct (find _ _ _); [|done]).
  all: cbn [outcome_document]; inside Hm.
Qed.

(** X11.  On a page whose data carries no markup, a page function leaves
    every element with an id that is not one of its own containers as it
    was, in particular the containers of the other page functions; and no
    element with an id appears or disappears. *)
Theorem render_frame formatTRY v pg id :
  inert formatTRY pg →
  (id ∉ targets v →
   outcome_document (render formatTRY v pg) !! id = document pg !! id) ∧
  (∀ w, w ≠ v → id ∈ targets w →
        outcome_document (render formatTRY v pg) !! id = document pg !! id) ∧
  (is_Some (outcome_document (render formatTRY v pg) !! id)
   ↔ is_Some (document pg !! id)).
Proof.
  intros _. split; [apply render_outside|]. split; [|apply render_present].
  intros w Hw Hin. apply render_outside. intros Hv.
  destruct v, w; try done; cbn [targets] in Hin, Hv;
    repeat (apply elem_of_cons in Hin as [->|Hin];
            [by repeat (apply elem_of_cons in Hv as [?|Hv]; [done|]);
                apply elem_of_nil in Hv|]);
    by apply elem_of_nil in Hin.
Qed.

Lemma render_frame_witness :
  ("paymentInfo" ∉ targets OrdersTable →
   outcome_document (render (λ _, "") OrdersTable order_page) !! "paymentInfo"
   = document order_page !! "paymentInfo") ∧
  (∀ w, w ≠ OrdersTable → "paymentInfo" ∈ targets w →
        outcome_document (render (λ _, "") OrdersTable order_page) !! "paymentInfo"
        = document order_page !! "paymentInfo") ∧
  (is_Some (outcome_document (render (λ _, "") OrdersTable order_page)
              !! "paymentInfo")
   ↔ is_Some (document order_page !! "paymentInfo")).
Proof.
  apply (render_frame (λ _, "") OrdersTable order_page "paymentInfo").
  split; [intros x; reflexivity|].
  apply (bool_decide_unpack _). vm_compute. exact I.
Defined.

(** ** Detail pages without their record *)

Lemma find_none name v array :
  Forall (λ x, strict_equal (field x name) v = false) array →
  find name v array = None.
Proof.
  intros H. unfold find.
  assert (list_find (λ x, strict_equal (Get (VRecord x) name) v = true) array = None)
    as ->; [|done].
  apply list_find_None. eapply Forall_impl; [exact H|].
  intros x Hx Ht. unfold field in Hx. congruence.
Qed.

Lemma strict_equal_string_number (r : record) name s n :
  r !! name = Some (JString s) → strict_equal (field r name) (VNumber n) = false.
Proof. intros H. by rewrite (field_own _ _ _ H). Qed.

(** X12.  When no order has the identifier of the query as its [OrderID],
    and no service request as its [ServiceID], under strict equality, the
    two detail functions leave the document as it was. *)
Theorem detail_not_found formatTRY pg :
  (∀ orders, loadJSON pg "data/orders.json" = Some orders →
     Forall (λ o, strict_equal (field o "OrderID")
                    (VNumber (ToNumber (getParam pg "id"))) = false) orders) →
  (∀ services, loadJSON pg "data/service_requests.json" = Some services →
     Forall (λ s, strict_equal (field s "ServiceID")
                    (VNumber (ToNumber (getParam pg "id"))) = false) services) →
  outcome_document (loadOrderDetail formatTRY pg) = document pg ∧
  outcome_document (loadServiceDetail pg) = document pg.
Proof.
  intros Ho Hs. split.
  - unfold loadOrderDetail.
    destruct (document pg !! _); [|done]. destruct (negb _); [done|].
    load_all pg; try done. by rewrite (find_none _ _ _ (Ho _ eq_refl)).
  - unfold loadServiceDetail.
    destruct (document pg !! _); [|done]. destruct (negb _); [done|].
    load_all pg; try done. by rewrite (find_none _ _ _ (Hs _ eq_refl)).
Qed.

Lemma detail_not_found_witness :
  outcome_document (loadOrderDetail (λ _, "") stale_page) = document stale_page ∧
  outcome_document (loadServiceDetail stale_page) = document stale_page.
Proof.
  apply (detail_not_found (λ _, "") stale_page).
  - intros orders [= <-]. repeat constructor.
  - intros services [= <-]. repeat constructor.
Defined.

(** X13.  Identifiers written as strings in the data are never found: the
    query gives a number, and [===] holds between no string and a number.
    The two detail functions then leave the document as it was, whatever the
    [id]. *)
Theorem detail_quoted_ids formatTRY pg :
  (∀ orders, loadJSON pg "data/orders.json" = Some orders →
     Forall (λ o : record, ∃ s, o !! "OrderID" = Some (JString s)) orders) →
  (∀ services, loadJSON pg "data/service_requests.json" = Some services →
     Forall (λ r : record, ∃ s, r !! "ServiceID" = Some (JString s)) services) →
  outcome_document (loadOrderDetail formatTRY pg) = document pg ∧
  outcome_document (loadServiceDetail pg) = document pg.
Proof.
  intros Ho Hs. split.
  - unfold loadOrderDetail.
    destruct (document pg !! _); [|done]. destruct (negb _); [done|].
    load_all pg; try done. rewrite find_none; [done|].
    eapply Forall_impl; [by apply Ho|]. intros o [s Ho'].
    by eapply strict_equal_string_number.
  - unfold loadServiceDetail.
    destruct (document pg !! _); [|done]. destruct (negb _); [done|].
    load_all pg; try done. rewrite find_none; [done|].
    eapply Forall_impl; [by apply Hs|]. intros o [s Ho'].
    by eapply strict_equal_string_number.
Qed.

Lemma detail_quoted_ids_witness :
  outcome_document (loadOrderDetail (λ _, "") quoted_page) = document quoted_page ∧
  outcome_document (loadServiceDetail quoted_page) = document quoted_page.
Proof.
  apply (detail_quoted_ids (λ _, "") quoted_page).
  - intros orders [= <-]. repeat constructor. eexists. vm_compute. reflexivity.
  - intros services [= <-]. repeat constructor. eexists. vm_compute. reflexivity.
Defined.


(** ** Fields written without escaping *)

Lemma prefix_app s b : String.prefix s (s +:+ b) = true.
Proof.
  induction s as [|c s IH]; [by destruct b|].
  rewrite string_app_cons. simpl. by destruct (ascii_dec c c).
Qed.

Lemma includes_prefix n s : String.prefix n s = true → includes n s = true.
Proof. intros H. destruct s; cbn [includes]; by rewrite H. Qed.

Lemma includes_here s b : includes s (s +:+ b) = true.
Proof. apply includes_prefix, prefix_app. Qed.

Lemma includes_app_r s a b : includes s b = true → includes s (a +:+ b) = true.
Proof.
  intros H. induction a as [|c a IH]; [done|].
  rewrite string_app_cons. cbn [includes]. by rewrite IH, orb_true_r.
Qed.

Lemma string_app_nil_r s : s +:+ "" = s.
Proof. induction s as [|c s IH]; [done|]. rewrite string_app_cons. by f_equal. Qed.

Lemma concat_split s parts :
  s ∈ parts → ∃ a b, String.concat "" parts = a +:+ s +:+ b.
Proof.
  induction parts as [|x parts IH]; [by intros ?%elem_of_nil|].
  intros [->|Hin]%elem_of_cons.
  - exists "". destruct parts as [|y parts].
    + exists "". simpl. by rewrite string_app_nil_r.
    + by exists (String.concat "" (y :: parts)).
  - destruct (IH Hin) as (a & b & Heq). destruct parts as [|y parts].
    { by apply elem_of_nil in Hin. }
    exists (x +:+ a), b.
    change (String.concat "" (x :: y :: parts))
      with (x +:+ String.concat "" (y :: parts)).
    by rewrite Heq, string_app_assoc.
Qed.

Lemma template_includes s parts : s ∈ parts → includes s (template parts) = true.
Proof.
  intros (a & b & Heq)%concat_split. unfold template. rewrite Heq.
  apply includes_app_r, includes_here.
Qed.

(** X14.  The row of the orders table carries the [OrderID], [StoreID] and
    [OrderDate] fields as they are, without escaping: whatever the text of
    the field, the row includes it unchanged. *)
Theorem ordersRow_unescaped formatTRY customerById o :
  includes (ToString (field o "OrderID")) (ordersRow formatTRY customerById o) = true ∧
  includes (ToString (field o "StoreID")) (ordersRow formatTRY customerById o) = true ∧
  includes (ToString (field o "OrderDate")) (ordersRow formatTRY customerById o) = true.
Proof.
  unfold ordersRow.
  repeat split; apply template_includes;
    repeat first [ by (apply elem_of_cons; left) | apply elem_of_cons; right ].
Qed.


(** ** Numbers and their decimal text *)

Lemma pretty_N_char_code d :
  (d < 10)%N → N_of_ascii (pretty_N_char d) = (48 + d)%N.
Proof.
  intros H.
  assert (d = 0 ∨ d = 1 ∨ d = 2 ∨ d = 3 ∨ d = 4 ∨ d = 5 ∨ d = 6 ∨ d = 7 ∨ d = 8
          ∨ d = 9)%N as Hd by lia.
  repeat (destruct Hd as [->|Hd]; [reflexivity|]). by subst.
Qed.

Lemma bytes_cons c s : bytes (String c s) = N_of_ascii c :: bytes s.
Proof. reflexivity. Qed.

Lemma bytes_app a b : bytes (a +:+ b) = bytes a ++ bytes b.
Proof.
  induction a as [|c a IH]; [done|].
  rewrite string_app_cons, !bytes_cons, IH. done.
Qed.

(** The digits of [x] are written in front of [s]. *)
Lemma pretty_N_go_app x s : pretty_N_go x s = pretty_N_go x "" +:+ s.
Proof.
  revert s. induction (N.lt_wf_0 x) as [x _ IH]; intros s.
  assert (x = 0 ∨ 0 < x)%N as [->|Hx] by lia; [by rewrite !pretty_N_go_0|].
  assert (x `div` 10 < x)%N as Hlt by (by apply N.div_lt).
  rewrite !(pretty_N_go_step x) by done.
  rewrite (IH _ Hlt (String _ s)), (IH _ Hlt (String _ "")).
  by rewrite string_app_assoc.
Qed.

Lemma pretty_N_snoc x :
  (0 < x)%N →
  pretty x = pretty_N_go (x `div` 10) "" +:+ String (pretty_N_char (x `mod` 10)) "".
Proof.
  intros Hx. unfold pretty, pretty_N. rewrite decide_False by lia.
  by rewrite pretty_N_go_step, pretty_N_go_app.
Qed.

Lemma pretty_N_go_pretty x : (0 < x)%N → pretty_N_go x "" = pretty x.
Proof. intros Hx. unfold pretty, pretty_N. by rewrite decide_False by lia. Qed.

Lemma pretty_N_digits (x : N) : Forall digit_code (bytes (pretty x)) ∧ pretty x ≠ "".
Proof.
  induction (N.lt_wf_0 x) as [x _ IH].
  assert (x = 0 ∨ 0 < x)%N as [->|Hx] by lia.
  { split; [|by vm_compute]. change (bytes (pretty 0%N)) with [48%N].
    constructor; [unfold digit_code; lia | constructor]. }
  rewrite pretty_N_snoc by done. split.
  - rewrite bytes_app. apply Forall_app. split.
    + destruct (N.eq_0_gt_0_cases (x `div` 10)) as [->|Hd]; [constructor|].
      rewrite pretty_N_go_pretty by done. apply IH. by apply N.div_lt.
    + rewrite bytes_cons. constructor; [|constructor].
      assert (x `mod` 10 < 10)%N as Hm by (by apply N.mod_lt).
      rewrite pretty_N_char_code by done. unfold digit_code.
      revert Hm. generalize (x `mod` 10)%N. intros m Hm. lia.
  - by destruct (pretty_N_go _ _).
Qed.

Lemma foldl_horner a l :
  foldl (λ acc d, acc * 10 + d)%N a l = (a * 10 ^ N.of_nat (length l) + horner l)%N.
Proof.
  unfold horner. revert a. induction l as [|d l IH]; intros a; simpl.
  - lia.
  - rewrite IH, (IH (0 * 10 + d)%N).
    replace (N.of_nat (S (length l))) with (N.succ (N.of_nat (length l))) by lia.
    rewrite N.pow_succ_r'. lia.
Qed.

Lemma horner_snoc l d : horner (l ++ [d]) = (horner l * 10 + d)%N.
Proof. unfold horner. by rewrite foldl_snoc. Qed.

(** The value of the digits of the text of [x] is [x]. *)
Lemma horner_pretty (x : N) :
  horner ((λ c, c - 48)%N <$> bytes (pretty x)) = x.
Proof.
  induction (N.lt_wf_0 x) as [x _ IH].
  assert (x = 0 ∨ 0 < x)%N as [->|Hx] by lia; [done|].
  rewrite pretty_N_snoc, bytes_app, fmap_app by done.
  rewrite bytes_cons. simpl. rewrite horner_snoc.
  rewrite pretty_N_char_code by (by apply N.mod_lt).
  destruct (N.eq_0_gt_0_cases (x `div` 10)) as [Hd|Hd].
  - rewrite Hd, pretty_N_go_0. simpl. unfold horner. simpl.
    pose proof (N.div_mod x 10 ltac:(done)) as Hdm. rewrite Hd in Hdm.
    revert Hdm. generalize (x `mod` 10)%N. intros m Hdm. lia.
  - rewrite pretty_N_go_pretty, IH by (done || by apply N.div_lt).
    pose proof (N.div_mod x 10 ltac:(done)) as Hdm.
    revert Hdm. generalize (x `mod` 10)%N (x `div` 10)%N. intros m d Hdm. lia.
Qed.

Lemma read_digits_all l :
  Forall digit_code l → read_digits 10 l = ((λ c, c - 48)%N <$> l, []).
Proof.
  induction 1 as [|c l Hc _ IH]; [done|]. simpl. unfold digit_code in Hc.
  unfold digit. rewrite bool_decide_eq_true_2 by done. simpl.
  assert ((c - 48 <? 10)%N = true) as -> by (apply N.ltb_lt; lia).
  by rewrite IH.
Qed.

Lemma drop_one_digit ws c l :
  Forall (λ w, ∃ b w', w = b :: w' ∧ ¬ digit_code b) ws →
  digit_code c → drop_one ws (c :: l) = None.
Proof.
  intros Hws Hc. induction Hws as [|w ws (b & w' & -> & Hb) _ IH]; [done|].
  simpl. rewrite bool_decide_eq_false_2 by (intros ->; done). done.
Qed.

Lemma white_space_not_digit :
  Forall (λ w, ∃ b w', w = b :: w' ∧ ¬ digit_code b) StrWhiteSpaceChar ∧
  Forall (λ w, ∃ b w', w = b :: w' ∧ ¬ digit_code b) (reverse <$> StrWhiteSpaceChar).
Proof.
  split.
  - let l := eval vm_compute in StrWhiteSpaceChar in change StrWhiteSpaceChar with l.
    repeat (constructor; [eexists _, _; split; [reflexivity | unfold digit_code; lia]|]).
    constructor.
  - let l := eval vm_compute in (reverse <$> StrWhiteSpaceChar) in
      change (reverse <$> StrWhiteSpaceChar) with l.
    repeat (constructor; [eexists _, _; split; [reflexivity | unfold digit_code; lia]|]).
    constructor.
Qed.

Lemma trim_start_digit ws fuel c l :
  Forall (λ w, ∃ b w', w = b :: w' ∧ ¬ digit_code b) ws →
  digit_code c → trim_start ws fuel (c :: l) = c :: l.
Proof.
  intros Hws Hc. destruct fuel; [done|]. simpl.
  by rewrite (drop_one_digit ws c l Hws Hc).
Qed.

Lemma trim_digits l : Forall digit_code l → trim l = l.
Proof.
  intros H. destruct white_space_not_digit as [Hws Hws'].
  destruct l as [|c l]; [done|]. unfold trim.
  apply Forall_cons in H as Hcl. destruct Hcl as [Hc _].
  rewrite (trim_start_digit _ _ c l Hws Hc).
  destruct (reverse (c :: l)) as [|d r] eqn:Hr.
  { apply (f_equal length) in Hr. rewrite length_reverse in Hr. done. }
  assert (digit_code d) as Hd.
  { rewrite Forall_forall in H. apply H. apply elem_of_reverse.
    rewrite Hr. apply elem_of_cons. by left. }
  rewrite (trim_start_digit _ _ d r Hws' Hd), <- Hr. apply reverse_involutive.
Qed.

Lemma digit_code_cases c :
  digit_code c →
  c ∈ [48; 49; 50; 51; 52; 53; 54; 55; 56; 57]%N.
Proof.
  unfold digit_code. intros H.
  assert (c = 48 ∨ c = 49 ∨ c = 50 ∨ c = 51 ∨ c = 52 ∨ c = 53 ∨ c = 54 ∨ c = 55
          ∨ c = 56 ∨ c = 57)%N as Hc by lia.
  repeat (destruct Hc as [->|Hc]; [apply (bool_decide_unpack _); by vm_compute|]).
  subst. apply (bool_decide_unpack _). by vm_compute.
Qed.

Ltac digit_cases H :=
  apply digit_code_cases in H;
  repeat (apply elem_of_cons in H as [->|H]); [..|by apply elem_of_nil in H].

Lemma NonDecimalIntegerLiteral_digits l :
  Forall digit_code l → NonDecimalIntegerLiteral l = None.
Proof.
  intros H. destruct l as [|c [|c' l]]; [done|..].
  - apply Forall_cons in H as [Hc _]. digit_cases Hc; reflexivity.
  - apply Forall_cons in H as [Hc [Hc' _]%Forall_cons].
    digit_cases Hc; try reflexivity. digit_cases Hc'; reflexivity.
Qed.

Lemma read_sign_digits l : Forall digit_code l → read_sign l = (false, l).
Proof.
  intros H. destruct l as [|c l]; [done|].
  apply Forall_cons in H as [Hc _]. digit_cases Hc; reflexivity.
Qed.

Lemma StringToNumber_digits L :
  Forall digit_code L → L ≠ [] →
  match trim L with
  | [] => of_Z 0
  | l => default (StrDecimalLiteral l) (NonDecimalIntegerLiteral l)
  end = of_Z (Z.of_N (horner ((λ c, c - 48)%N <$> L))).
Proof.
  intros Hd Hne. rewrite (trim_digits _ Hd).
  destruct L as [|c l]; [done|]. cbv iota zeta.
  rewrite (NonDecimalIntegerLiteral_digits _ Hd). simpl default.
  unfold StrDecimalLiteral. rewrite (read_sign_digits _ Hd).
  rewrite bool_decide_eq_false_2.
  2: { intros Heq. rewrite Heq in Hd. apply Forall_cons in Hd as [Hc _].
       unfold digit_code in Hc. simpl in Hc. lia. }
  rewrite (read_digits_all _ Hd), app_nil_r.
  rewrite fmap_cons. cbv iota. cbn [ExponentPart length].
  unfold of_Z, decimal, signed, digits_value. cbn [Z.leb Z.sub Z.of_nat Z.compare Z.opp Z.add].
  change (foldl _ 0%N ?l') with (horner l').
  do 2 f_equal. lia.
Qed.

(** [Number] reads the decimal text of a natural number back. *)
Lemma StringToNumber_pretty (n : N) : StringToNumber (pretty n) = of_Z (Z.of_N n).
Proof.
  destruct (pretty_N_digits n) as [Hd Hne].
  unfold StringToNumber. rewrite StringToNumber_digits, horner_pretty; [done..|].
  intros Hb. by destruct (pretty n).
Qed.

(** ** The text of a natural number *)

Lemma zeros_succ (e : nat) :
  String.concat "" (replicate (S e) "0") = String "0" (String.concat "" (replicate e "0")).
Proof. destruct e; reflexivity. Qed.

Lemma zeros_snoc (e : nat) :
  String.concat "" (replicate (S e) "0") = String.concat "" (replicate e "0") +:+ "0".
Proof.
  induction e as [|e IH]; [done|].
  rewrite zeros_succ, IH at 1. rewrite (zeros_succ e). by rewrite string_app_cons.
Qed.

Lemma zeros_length (e : nat) :
  String.length (String.concat "" (replicate e "0")) = e.
Proof.
  induction e as [|e IH]; [done|]. rewrite zeros_succ. simpl. by rewrite IH.
Qed.

Lemma pretty_N_times10 (x : N) : (0 < x)%N → pretty (x * 10)%N = pretty x +:+ "0".
Proof.
  intros Hx. rewrite pretty_N_snoc by lia.
  rewrite N.div_mul, N.Div0.mod_mul by done.
  by rewrite pretty_N_go_pretty.
Qed.

Lemma pretty_N_pow10 (x : N) (e : nat) :
  (0 < x)%N →
  pretty (x * 10 ^ N.of_nat e)%N = pretty x +:+ String.concat "" (replicate e "0").
Proof.
  intros Hx. induction e as [|e IH].
  - simpl. rewrite N.mul_1_r. by rewrite string_app_nil_r.
  - rewrite Nat2N.inj_succ, N.pow_succ_r', zeros_snoc.
    replace (x * (10 * 10 ^ N.of_nat e))%N with (x * 10 ^ N.of_nat e * 10)%N by lia.
    rewrite pretty_N_times10, IH, string_app_assoc; [done|].
    apply N.mul_pos_pos; [done|]. by apply N.neq_0_lt_0, N.pow_nonzero.
Qed.

Lemma pretty_N_go_length (d : nat) (x : N) :
  (x < 10 ^ N.of_nat d)%N → (String.length (pretty_N_go x "") ≤ d)%nat.
Proof.
  revert x. induction d as [|d IH]; intros x Hx.
  - assert (x = 0%N) as -> by (simpl in Hx; lia). done.
  - destruct (N.eq_0_gt_0_cases x) as [->|Hpos]; [rewrite pretty_N_go_0; simpl; lia|].
    rewrite pretty_N_go_step, pretty_N_go_app, string_length_app by done.
    rewrite Nat2N.inj_succ, N.pow_succ_r' in Hx.
    assert (x `div` 10 < 10 ^ N.of_nat d)%N as Hlt.
    { apply N.Div0.div_lt_upper_bound. lia. }
    specialize (IH _ Hlt). simpl. lia.
Qed.

Lemma pretty_N_length (d : nat) (x : N) :
  (0 < x < 10 ^ N.of_nat d)%N → (String.length (pretty x) ≤ d)%nat.
Proof.
  intros [Hx Hd]. rewrite <- pretty_N_go_pretty by done. by apply pretty_N_go_length.
Qed.

(** Stripping trailing zeros keeps the value. *)
Lemma strip_zeros_value fuel (s e : Z) :
  (0 < s)%Z →
  ∃ s' k, strip_zeros fuel s e = (s', e + Z.of_nat k)%Z ∧
          (0 < s')%Z ∧ s = (s' * 10 ^ Z.of_nat k)%Z.
Proof.
  revert s e. induction fuel as [|fuel IH]; intros s e Hs.
  - exists s, 0%nat. simpl. split; [f_equal; lia|]. split; [done|lia].
  - simpl. destruct (Z.eqb_spec (s `mod` 10) 0) as [Hm|Hm].
    + assert (s = 10 * (s `div` 10))%Z as Hdiv.
      { pose proof (Z.div_mod s 10 ltac:(done)). lia. }
      assert (0 < s `div` 10)%Z as Hpos by lia.
      destruct (IH (s `div` 10)%Z (e + 1)%Z Hpos) as (s' & k & Heq & Hs' & Hval).
      exists s', (S k). rewrite Heq. split; [f_equal; lia|]. split; [done|].
      rewrite Nat2Z.inj_succ, Z.pow_succ_r by lia. lia.
    + exists s, 0%nat. split; [f_equal; lia|]. split; [done|simpl; lia].
Qed.

(** The text of the exact value of a natural number below [10^21], from
    where on an exponent is written, is the digits of the number. *)
Lemma number_toString_N (n : N) :
  (n < 10 ^ 21)%N → number_toString (of_Z (Z.of_N n)) = pretty n.
Proof.
  intros Hn. destruct n as [|p]; [done|].
  unfold of_Z, number_toString, Qc_of_Z. cbn [this Z.of_N].
  change (inject_Z (Z.pos p)) with (Z.pos p # 1). cbn [Qnum].
  unfold positive_toString, significand. cbn [Qden Pos.size_nat to_integer Pos.eqb Qnum].
  destruct (strip_zeros_value (Z.to_nat (Z.log2 (Z.pos p))) (Z.pos p) 0 ltac:(done))
    as (s' & k & -> & Hs' & Hval).
  destruct s' as [|q|q]; [done| |done].
  assert (N.pos p = N.pos q * 10 ^ N.of_nat k)%N as HN.
  { apply N2Z.inj. rewrite N2Z.inj_mul, N2Z.inj_pow, nat_N_Z. exact Hval. }
  assert (pretty (N.pos p) = pretty (N.pos q) +:+ String.concat "" (replicate k "0")) as Hp.
  { rewrite HN. by apply pretty_N_pow10. }
  change (pretty (Z.pos q)) with (pretty (N.pos q)).
  pose proof (pretty_N_length 21 (N.pos p) ltac:(split; [done|exact Hn])) as Hlen.
  rewrite Hp, string_length_app, zeros_length in Hlen.
  rewrite bool_decide_eq_true_2 by lia.
  rewrite Hp. unfold zeros. f_equal. f_equal. f_equal. lia.
Qed.

(** ** From a number to its text and back *)

(** The text of a safe integer is its digits. *)
Lemma safe_integer_text (n : N) :
  (n ≤ MAX_SAFE_INTEGER)%N → number_toString (of_Z (Z.of_N n)) = pretty n.
Proof.
  intros Hn. apply number_toString_N.
  eapply N.le_lt_trans; [exact Hn|]. by vm_compute.
Qed.

Lemma natural_field (r : record) name (n : N) :
  r !! name = Some (number_field (Z.of_N n)) →
  field r name = VNumber (of_Z (Z.of_N n)).
Proof. intros H. by rewrite (field_own _ _ _ H). Qed.

Lemma positive_truthy (n : N) : (0 < n)%N → ToBoolean (VNumber (of_Z (Z.of_N n))) = true.
Proof.
  intros Hn. unfold of_Z. cbn [ToBoolean].
  rewrite bool_decide_eq_false_2; [done|].
  intros H. apply (f_equal this) in H. cbv in H. destruct n; [lia|discriminate].
Qed.

Lemma strict_equal_number v x : strict_equal v (VNumber x) = true → v = VNumber x.
Proof.
  destruct v as [| | |y| | | |]; cbn [strict_equal]; try by intros ?%bool_decide_eq_true.
  unfold number_equal. destruct y, x; try done; by intros [= ->]%bool_decide_eq_true.
Qed.

Lemma strict_equal_natural (n : N) :
  strict_equal (VNumber (of_Z (Z.of_N n))) (VNumber (of_Z (Z.of_N n))) = true.
Proof. cbn [strict_equal]. unfold of_Z, number_equal. by apply bool_decide_eq_true_2. Qed.

Lemma find_some name v array (o : record) :
  o ∈ array → strict_equal (field o name) v = true →
  ∃ o', find name v array = Some o' ∧ o' ∈ array ∧ strict_equal (field o' name) v = true.
Proof.
  intros Hin Ho. unfold find.
  destruct (list_find (λ x, strict_equal (Get (VRecord x) name) v = true) array)
    as [[i o']|] eqn:Hf.
  - apply list_find_Some in Hf as (Hi & Ho' & _).
    exists o'. split; [done|]. split; [by eapply list_elem_of_lookup_2|done].
  - apply list_find_None in Hf. rewrite Forall_forall in Hf. by destruct (Hf o Hin).
Qed.

Lemma concat_cons x parts : String.concat "" (x :: parts) = x +:+ String.concat "" parts.
Proof. destruct parts; [by rewrite string_app_nil_r | done]. Qed.

Lemma concat_app pre post :
  String.concat "" (pre ++ post) = String.concat "" pre +:+ String.concat "" post.
Proof.
  induction pre as [|x pre IH]; [done|].
  rewrite <- app_comm_cons, !concat_cons, IH. by rewrite string_app_assoc.
Qed.

(** A template includes each run of consecutive parts of it. *)
Lemma template_includes_run pre mid post :
  includes (template mid) (template (pre ++ mid ++ post)) = true.
Proof.
  unfold template. rewrite !concat_app. apply includes_app_r, includes_here.
Qed.

(** X15.  The service dashboard reads the key of a group back with
    [Number(pid)]: for a natural number up to [MAX_SAFE_INTEGER] the key
    read back is the key itself, so the line of the group shows the last
    product filed under that identifier. *)
Theorem productLine_natural_id products p (n : N) count :
  (n ≤ MAX_SAFE_INTEGER)%N →
  "__proto__" ∉ key_of "ProductID" <$> products →
  last (filed_under "ProductID" (pretty n) products) = Some p →
  let pid := ToPropertyKey (VNumber (of_Z (Z.of_N n))) in
  pid = pretty n ∧
  productLine (indexBy products "ProductID") (pid, count)
  = template ["<li>";
              template [escapeHTML (field p "Brand"); " "; escapeHTML (field p "Model");
                        " (ID "; pretty n; ")"];
              ": <strong>"; ToString count; "</strong> request(s)</li>"].
Proof.
  intros Hn Hproto Hlast pid.
  assert (pid = pretty n) as -> by apply (safe_integer_text n Hn).
  split; [done|]. unfold productLine.
  unfold ToNumber. cbn [ToPrimitive]. rewrite StringToNumber_pretty.
  change (ToPropertyKey (VNumber (of_Z (Z.of_N n))))
    with (number_toString (of_Z (Z.of_N n))).
  rewrite (safe_integer_text n Hn).
  assert (object_Get (indexBy products "ProductID") (pretty n) = VRecord p) as ->.
  { unfold object_Get. rewrite indexBy_assign_each.
    rewrite (assign_each_last (key_of "ProductID") (λ item, VRecord item)
               products _ Hproto).
    unfold filed_under in Hlast. by rewrite Hlast. }
  done.
Qed.

Lemma productLine_natural_id_witness :
  let pid := ToPropertyKey (VNumber (of_Z (Z.of_N 12))) in
  pid = pretty 12%N ∧
  productLine (indexBy [product (number_field 12) "Arcelik" "X1"] "ProductID")
              (pid, VNumber (of_Z 2))
  = template ["<li>";
              template [escapeHTML (VString "Arcelik"); " "; escapeHTML (VString "X1");
                        " (ID "; pretty 12%N; ")"];
              ": <strong>"; "2"; "</strong> request(s)</li>"].
Proof.
  apply (productLine_natural_id [product (number_field 12) "Arcelik" "X1"]
           (product (number_field 12) "Arcelik" "X1") 12 (VNumber (of_Z 2))).
  - by vm_compute.
  - apply (bool_decide_unpack _). vm_compute. exact I.
  - vm_compute. reflexivity.
Defined.

(** X16.  The link of an orders row opens the order of the row: for an
    order whose [OrderID] is a natural number [n] from 1 up to
    [MAX_SAFE_INTEGER], the row carries the link [order.html?id=n]; on a
    detail page with that [id] where everything loads, the function finds an
    order of that [OrderID] and shows its heading in [orderInfo]. *)
Theorem order_link_opens_order formatTRY customerById pg orders o (n : N) :
  (0 < n ≤ MAX_SAFE_INTEGER)%N →
  o !! "OrderID" = Some (number_field (Z.of_N n)) →
  o ∈ orders →
  getParam pg "id" = VString (pretty n) →
  is_Some (document pg !! "orderInfo") →
  loadJSON pg "data/orders.json" = Some orders →
  Forall (λ path, is_Some (loadJSON pg path)) (needs OrderDetail) →
  includes (template ["location.href='order.html?id="; pretty n; "'"])
           (ordersRow formatTRY customerById o) = true ∧
  ∃ html,
    outcome_document (loadOrderDetail formatTRY pg) !! "orderInfo"
    = Some (innerHTML html) ∧
    includes (template ["    <h3>Order #"; pretty n; "</h3>"]) html = true.
Proof.
  intros [Hpos Hn] Ho Hin Hid [c Hm] Horders Hall.
  pose proof (natural_field _ _ _ Ho) as Hfield.
  split.
  { unfold ordersRow. rewrite Hfield.
    change (ToString (VNumber (of_Z (Z.of_N n))))
      with (number_toString (of_Z (Z.of_N n))).
    rewrite (safe_integer_text n Hn).
    apply (template_includes_run [nl; "      <tr onclick="; dq]
             ["location.href='order.html?id="; pretty n; "'"]). }
  unfold loadOrderDetail. rewrite Hm, Hid.
  unfold ToNumber. cbn [ToPrimitive]. rewrite StringToNumber_pretty.
  rewrite (positive_truthy n Hpos). cbn [negb].
  cbn [needs] in Hall. rewrite !Forall_cons in Hall.
  destruct Hall as (_ & [? ->] & [? ->] & [? ->] & [? ->] & [? ->] & _).
  rewrite Horders.
  destruct (find_some "OrderID" (VNumber (of_Z (Z.of_N n))) orders o Hin)
    as (o' & -> & _ & Ho'%strict_equal_number).
  { rewrite Hfield. apply strict_equal_natural. }
  cbn [outcome_document]. eexists.
  rewrite setHTML_other, setHTML_other, guarded_other by done.
  unfold setHTML at 1. rewrite Hm, lookup_insert_eq. split; [done|].
  cbn [DOMString]. rewrite Ho'.
  change (ToString (VNumber (of_Z (Z.of_N n))))
    with (number_toString (of_Z (Z.of_N n))).
  rewrite (safe_integer_text n Hn). cbn [ToString].
  apply (template_includes_run [nl] ["    <h3>Order #"; pretty n; "</h3>"]).
Qed.

Lemma order_link_opens_order_witness :
  includes (template ["location.href='order.html?id="; pretty 1%N; "'"])
           (ordersRow (λ _, "") empty_object
              (order (number_field 1) (number_field 5))) = true ∧
  ∃ html,
    outcome_document (loadOrderDetail (λ _, "") order_page) !! "orderInfo"
    = Some (innerHTML html) ∧
    includes (template ["    <h3>Order #"; pretty 1%N; "</h3>"]) html = true.
Proof.
  apply (order_link_opens_order (λ _, "") empty_object order_page
           [order (number_field 1) (number_field 5)]
           (order (number_field 1) (number_field 5)) 1).
  - split; [reflexivity|]. by vm_compute.
  - vm_compute. reflexivity.
  - apply list_elem_of_singleton. reflexivity.
  - vm_compute. reflexivity.
  - eexists. vm_compute. reflexivity.
  - vm_compute. reflexivity.
  - cbn [needs]. repeat (constructor; [eexists; vm_compute; reflexivity|]).
    constructor.
Defined.

(** X17.  The link of a service requests row opens the request of the row:
    for a request whose [ServiceID] is a natural number [n] from 1 up to
    [MAX_SAFE_INTEGER], the row carries the link [service.html?id=n]; on a
    detail page with that [id] where everything loads, the function finds a
    request of that [ServiceID] and shows its heading in [serviceInfo]. *)
Theorem service_link_opens_request customerById productById pg services s (n : N) :
  (0 < n ≤ MAX_SAFE_INTEGER)%N →
  s !! "ServiceID" = Some (number_field (Z.of_N n)) →
  s ∈ services →
  getParam pg "id" = VString (pretty n) →
  is_Some (document pg !! "serviceInfo") →
  loadJSON pg "data/service_requests.json" = Some services →
  Forall (λ path, is_Some (loadJSON pg path)) (needs ServiceDetail) →
  includes (template ["location.href='service.html?id="; pretty n; "'"])
           (servicesRow customerById productById s) = true ∧
  ∃ html,
    outcome_document (loadServiceDetail pg) !! "serviceInfo" = Some (innerHTML html) ∧
    includes (template ["    <h3>Service Request #"; pretty n; "</h3>"]) html = true.
Proof.
  intros [Hpos Hn] Hs Hin Hid [c Hm] Hservices Hall.
  pose proof (natural_field _ _ _ Hs) as Hfield.
  split.
  { unfold servicesRow. rewrite Hfield.
    change (ToString (VNumber (of_Z (Z.of_N n))))
      with (number_toString (of_Z (Z.of_N n))).
    rewrite (safe_integer_text n Hn).
    apply (template_includes_run [nl; "      <tr onclick="; dq]
             ["location.href='service.html?id="; pretty n; "'"]). }
  unfold loadServiceDetail. rewrite Hm, Hid.
  unfold ToNumber. cbn [ToPrimitive]. rewrite StringToNumber_pretty.
  rewrite (positive_truthy n Hpos). cbn [negb].
  cbn [needs] in Hall. rewrite !Forall_cons in Hall.
  destruct Hall as (_ & [? ->] & [? ->] & _).
  rewrite Hservices.
  destruct (find_some "ServiceID" (VNumber (of_Z (Z.of_N n))) services s Hin)
    as (s' & -> & _ & Hs'%strict_equal_number).
  { rewrite Hfield. apply strict_equal_natural. }
  cbn [outcome_document]. eexists.
  unfold setHTML. rewrite Hm, lookup_insert_eq. split; [done|].
  cbn [DOMString]. rewrite Hs'.
  change (ToString (VNumber (of_Z (Z.of_N n))))
    with (number_toString (of_Z (Z.of_N n))).
  rewrite (safe_integer_text n Hn). cbn [ToString].
  apply (template_includes_run [nl] ["    <h3>Service Request #"; pretty n; "</h3>"]).
Qed.

Lemma service_link_opens_request_witness :
  includes (template ["location.href='service.html?id="; pretty 7%N; "'"])
           (servicesRow empty_object empty_object (request 7 1 2 "Open")) = true ∧
  ∃ html,
    outcome_document (loadServiceDetail service_page) !! "serviceInfo"
    = Some (innerHTML html) ∧
    includes (template ["    <h3>Service Request #"; pretty 7%N; "</h3>"]) html = true.
Proof.
  apply (service_link_opens_request empty_object empty_object service_page
           [request 7 1 2 "Open"] (request 7 1 2 "Open") 7).
  - split; [reflexivity|]. by vm_compute.
  - vm_compute. reflexivity.
  - apply list_elem_of_singleton. reflexivity.
  - vm_compute. reflexivity.
  - eexists. vm_compute. reflexivity.
  - vm_compute. reflexivity.
  - cbn [needs]. repeat (constructor; [eexists; vm_compute; reflexivity|]).
    constructor.
Defined.

(** ** Running a page function again *)

Lemma write_lookup id c (doc : gmap string content) i :
  write id c doc !! i = if decide (id = i) then (λ _, c) <$> doc !! i else doc !! i.
Proof.
  unfold write. destruct (decide (id = i)) as [->|Hne].
  - destruct (doc !! i) eqn:H; [by rewrite lookup_insert_eq | by rewrite H].
  - destruct (doc !! id); [by rewrite lookup_insert_ne | done].
Qed.

Lemma writes_snoc ws w doc : writes (ws ++ [w]) doc = write w.1 w.2 (writes ws doc).
Proof. unfold writes. by rewrite foldl_snoc. Qed.

(** What a sequence of writes leaves in a container: the content of the
    last write to it, if the container is there. *)
Lemma writes_lookup ws (doc : gmap string content) i :
  writes ws doc !! i =
  match last (filter (λ w, w.1 = i) ws) with
  | Some w => (λ _, w.2) <$> doc !! i
  | None => doc !! i
  end.
Proof.
  induction ws as [|w ws IH] using rev_ind; [done|].
  rewrite writes_snoc, write_lookup, filter_app, filter_cons, filter_nil, IH.
  destruct (decide (w.1 = i)) as [Hw|Hw].
  - rewrite last_snoc. destruct (last _); by destruct (doc !! i).
  - by rewrite app_nil_r.
Qed.

Lemma writes_twice ws (doc : gmap string content) :
  writes ws (writes ws doc) = writes ws doc.
Proof.
  apply map_eq. intros i. rewrite !writes_lookup.
  destruct (last _); [|done]. by destruct (doc !! i).
Qed.

Lemma writes_present ws (doc : gmap string content) i :
  is_Some (writes ws doc !! i) ↔ is_Some (doc !! i).
Proof.
  rewrite writes_lookup. destruct (last _); [|done]. by rewrite fmap_is_Some.
Qed.

Ltac loaded_or_none pg :=
  repeat match goal with
         | |- context [resources pg !! ?path] =>
             destruct (resources pg !! path);
             [|exists []; split; [constructor|];
               intros doc; cbn [writes foldl outcome_document];
               by destruct (doc !! _)]
         end.

Ltac own_targets :=
  cbn [targets];
  repeat (constructor;
          [cbn [fst];
           repeat first [ by (apply elem_of_cons; left) | apply elem_of_cons; right ]|]);
  constructor.

(** Each page function is a sequence of writes to its own containers that
    the query and the resources fix, made when the first container is
    there. *)
Lemma render_writes formatTRY v pg :
  ∃ ws, Forall (λ w, w.1 ∈ targets v) ws ∧
    ∀ doc,
      outcome_document (render formatTRY v (on_document doc pg))
      = match doc !! marker v with
        | Some _ => writes ws doc
        | None => doc
        end.
Proof.
  destruct v; cbn [render marker];
    [unfold initDashboard | unfold loadOrdersTable | unfold loadOrderDetail
    | unfold loadServiceDashboard | unfold loadServiceRequestsTable
    | unfold loadServiceDetail];
    unfold getParam, loadJSON; cbn [on_document document search resources].
  all: try (destruct (negb _);
            [exists []; split; [constructor|];
             intros doc; cbn [writes foldl]; by destruct (doc !! _)|]).
  all: loaded_or_none pg.
  all: try (destruct (find _ _ _);
            [|exists []; split; [constructor|];
              intros doc; cbn [writes foldl outcome_document];
              by destruct (doc !! _)]).
  - eexists [("totalOrders", _); ("totalRevenue", _); ("deliveredOrders", _);
             ("inTransit", _); ("orderStatusList", _); ("paymentMethodList", _)].
    split; [own_targets|]. intros doc. destruct (doc !! _); reflexivity.
  - eexists [("ordersBody", _)]. split; [own_targets|].
    intros doc. cbn [writes foldl fst snd]. unfold write.
    destruct (doc !! _); reflexivity.
  - eexists [("orderInfo", _); ("itemsList", _); ("paymentInfo", _);
             ("deliveryInfo", _)].
    split; [own_targets|]. intros doc. destruct (doc !! _); reflexivity.
  - eexists [("totalServices", _); ("openServices", _); ("progressServices", _);
             ("closedServices", _); ("serviceByProduct", _)].
    split; [own_targets|]. intros doc. destruct (doc !! _); reflexivity.
  - eexists [("servicesBody", _)]. split; [own_targets|].
    intros doc. cbn [writes foldl fst snd]. unfold write.
    destruct (doc !! _); reflexivity.
  - eexists [("serviceInfo", _)]. split; [own_targets|].
    intros doc. destruct (doc !! _); reflexivity.
Qed.

Lemma last_filter_key (ws : list (string * content)) i w :
  last (filter (λ w, w.1 = i) ws) = Some w → w ∈ ws ∧ w.1 = i.
Proof.
  intros H. apply last_Some_elem_of in H.
  apply list_elem_of_filter in H as [? ?]. done.
Qed.

Lemma writes_commute ws ws' (doc : gmap string content) :
  (∀ w w', w ∈ ws → w' ∈ ws' → w.1 ≠ w'.1) →
  writes ws (writes ws' doc) = writes ws' (writes ws doc).
Proof.
  intros Hd. apply map_eq. intros i. rewrite !writes_lookup.
  destruct (last (filter (λ w, w.1 = i) ws)) as [w|] eqn:Hw;
    destruct (last (filter (λ w, w.1 = i) ws')) as [w'|] eqn:Hw'; try done.
  apply last_filter_key in Hw as [Hin Hk], Hw' as [Hin' Hk'].
  destruct (Hd w w' Hin Hin'). congruence.
Qed.

Lemma targets_disjoint v w id : v ≠ w → id ∈ targets v → id ∉ targets w.
Proof.
  intros Hne Hin Hw.
  destruct v, w; try done; cbn [targets] in Hin, Hw;
    repeat (apply elem_of_cons in Hin as [->|Hin];
            [by repeat (apply elem_of_cons in Hw as [?|Hw]; [done|]);
                apply elem_of_nil in Hw|]);
    by apply elem_of_nil in Hin.
Qed.

Lemma on_document_same pg : on_document (document pg) pg = pg.
Proof. by destruct pg. Qed.

(** X18.  A page function run again on the document it produced, with the
    same query and the same resources, produces that document again. *)
Theorem render_again formatTRY v pg :
  let doc := outcome_document (render formatTRY v pg) in
  outcome_document (render formatTRY v (on_document doc pg)) = doc.
Proof.
  intros doc. destruct (render_writes formatTRY v pg) as (ws & _ & Hws).
  assert (doc = match document pg !! marker v with
                | Some _ => writes ws (document pg)
                | None => document pg
                end) as Hdoc.
  { unfold doc. rewrite <- (on_document_same pg) at 1. apply Hws. }
  rewrite Hws, Hdoc.
  destruct (document pg !! marker v) as [c|] eqn:Hm; [|by rewrite Hm].
  destruct (writes_present ws (document pg) (marker v)) as [_ [c' ->]]; [done|].
  apply writes_twice.
Qed.

(** X19.  On a page whose data carries no markup, two page functions can be
    run in either order: the document after both is the same. *)
Theorem render_commute formatTRY v w pg :
  inert formatTRY pg →
  outcome_document
    (render formatTRY w (on_document (outcome_document (render formatTRY v pg)) pg))
  = outcome_document
      (render formatTRY v (on_document (outcome_document (render formatTRY w pg)) pg)).
Proof.
  intros _.
  assert (v = w ∨ v ≠ w) as [->|Hne]; [by destruct v, w; (by left) || by right|done|].
  destruct (render_writes formatTRY v pg) as (ws & Hin & Hws).
  destruct (render_writes formatTRY w pg) as (ws' & Hin' & Hws').
  pose proof (Hws (document pg)) as Hv0. pose proof (Hws' (document pg)) as Hw0.
  rewrite on_document_same in Hv0, Hw0. rewrite Hv0, Hw0, Hws, Hws'.
  assert (∀ x x', x ∈ ws → x' ∈ ws' → x.1 ≠ x'.1) as Hd.
  { rewrite Forall_forall in Hin, Hin'. intros x x' Hx Hx' Heq.
    apply (targets_disjoint v w x.1 Hne (Hin _ Hx)). rewrite Heq. by apply Hin'. }
  destruct (document pg !! marker v) as [c|] eqn:Hv;
    destruct (document pg !! marker w) as [c'|] eqn:Hw;
    cbv iota; rewrite ?Hv, ?Hw.
  - destruct (writes_present ws (document pg) (marker w)) as [_ [? ->]]; [done|].
    destruct (writes_present ws' (document pg) (marker v)) as [_ [? ->]]; [done|].
    symmetry. by apply writes_commute.
  - destruct (writes ws (document pg) !! marker w) eqn:H'; [|done].
    assert (is_Some (document pg !! marker w)) as [? ?]; [|congruence].
    apply (writes_present ws). by eexists.
  - destruct (writes ws' (document pg) !! marker v) eqn:H'; [|done].
    assert (is_Some (document pg !! marker v)) as [? ?]; [|congruence].
    apply (writes_present ws'). by eexists.
  - done.
Qed.

Lemma render_commute_witness :
  outcome_document
    (render (λ _, "") OrderDetail
       (on_document (outcome_document (render (λ _, "") OrdersTable order_page))
                    order_page))
  = outcome_document
      (render (λ _, "") OrdersTable
         (on_document (outcome_document (render (λ _, "") OrderDetail order_page))
                      order_page)).
Proof.
  apply (render_commute (λ _, "") OrdersTable OrderDetail order_page).
  split; [intros x; reflexivity|].
  apply (bool_decide_unpack _). vm_compute. exact I.
Defined.
